(** * mongodb-mcp-vercel: query safety validation, limit policy and schema inference

    A shallow embedding of the TypeScript sources
    - [lib/mongodb/security.ts]  (denylist scanner, pipeline validator, limit policy),
    - [lib/mongodb/client.ts] and [lib/mongodb/serializer.ts]  (as far as the
      aggregate tool uses them; the client also with its module state),
    - [lib/mongodb/tools/aggregate.ts]  (the aggregate tool),
    - [lib/mongodb/tools/collectionSchema.ts]  (schema inference and the tool),
    - [lib/mongodb/tools/find.ts], [count.ts], [listCollections.ts] and
      [explain.ts]  (the other tools),
    - [app/mcp/route.ts]  (the API key check),
    followed by the properties the specification states about them and by
    further properties of the code. *)

From Stdlib Require Import List String Ascii Bool Arith ZArith QArith Qround Lia.
From Stdlib Require Import DecimalString Permutation Sorted Floats.
From Stdlib Require Strings.Byte Uint63.
Import ListNotations.

Set Warnings "-register-all".


Local Close Scope Q_scope.
Local Open Scope string_scope.
Local Open Scope list_scope.

(* ===================================================================== *)
(** * Part I.  The embedding                                              *)
(* ===================================================================== *)

(** ** JavaScript values shared by all components *)

Module JS.

(** A JavaScript [number] that the code only compares, classifies or
    passes on (limits, numbers inside filters and documents).  The finite
    doubles are embedded in the rationals: comparison, [Math.min] and
    [Number.isInteger] are exact on doubles.  Arithmetic that rounds is
    done on binary64 floats, see [Math_round] and [number_of_nat]. *)
Inductive number : Type :=
| NaN
| PosInfinity
| NegInfinity
| Fin (q : Q).

Definition of_Z (z : Z) : number := Fin (inject_Z z).

(** [x <= y] on numbers ([false] as soon as one side is NaN). *)
Definition num_le (x y : number) : bool :=
  match x, y with
  | NaN, _ | _, NaN => false
  | NegInfinity, _ => true
  | _, PosInfinity => true
  | PosInfinity, _ => false
  | _, NegInfinity => false
  | Fin a, Fin b => Qle_bool a b
  end.

(** [Math.min(x, y)]. *)
Definition Math_min (x y : number) : number :=
  match x, y with
  | NaN, _ | _, NaN => NaN
  | _, _ => if num_le x y then x else y
  end.

(** [Number.isInteger]. *)
Definition Number_isInteger (x : number) : bool :=
  match x with
  | Fin q => Qeq_bool q (inject_Z (Qfloor q))
  | _ => false
  end.

(** A non-negative integer below 2^53 (a length, a count) as a binary64
    number. *)
Definition number_of_Z (z : Z) : float := PrimFloat.of_uint63 (Uint63.of_Z z).

Definition number_of_nat (n : nat) : float := number_of_Z (Z.of_nat n).

(** [Math.round] on binary64: the nearest integer, halves going towards
    +Infinity.  A finite [x] is [m * 2^e] up to its sign; with [e >= 0] it
    is an integer already, otherwise the result is [floor(x + 1/2)],
    computed exactly, with the sign of [x] when it is zero.  Zeros,
    infinities and NaN are returned as they are. *)
Definition Math_round (x : float) : float :=
  match Prim2SF x with
  | S754_finite s m e =>
      if (0 <=? e)%Z then x
      else
        let num := if s then Z.neg m else Z.pos m in
        let r := Z.shiftr (num + Z.pow 2 (- e - 1)) (- e) in
        if (r =? 0)%Z then (if s then (-0)%float else 0%float)
        else if (r <? 0)%Z then PrimFloat.opp (number_of_Z (- r))
        else number_of_Z r
  | _ => x
  end.

(** ToBoolean on numbers and strings. *)
Definition truthy_number (x : number) : bool :=
  match x with
  | NaN => false
  | Fin q => negb (Qeq_bool q 0%Q)
  | _ => true
  end.

Definition truthy_string (s : string) : bool :=
  match s with
  | EmptyString => false
  | String _ _ => true
  end.

(** The double quote, for template literals that contain one. *)
Definition dq : string := String (ascii_of_nat 34) EmptyString.

(** [String(n)] for a non-negative integer [n]. *)
Definition string_of_nat (n : nat) : string :=
  NilZero.string_of_uint (Nat.to_uint n).

(** [arr.includes(x)] on an array of strings. *)
Definition includes (arr : list string) (x : string) : bool :=
  existsb (String.eqb x) arr.

(** [arr.join(sep)]. *)
Definition join (sep : string) (arr : list string) : string :=
  String.concat sep arr.

(** What a [throw] carries.  The text of an engine-raised [TypeError] is
    engine defined and is not modelled. *)
Inductive exn : Type :=
| Error (message : string)
| TypeError.

(** A computation that returns or throws. *)
Inductive result (A : Type) : Type :=
| Ok (a : A)
| Throw (e : exn).
Arguments Ok {A} a.
Arguments Throw {A} e.

Definition bind {A B : Type} (c : result A) (k : A -> result B) : result B :=
  match c with
  | Ok a => k a
  | Throw e => Throw e
  end.

Definition throws {A : Type} (c : result A) : Prop :=
  exists e, c = Throw e.

End JS.
Import JS.

Notation "x <- c ;; k" := (bind c (fun x => k))
  (at level 61, c at next level, right associativity).
Notation "c ;;; k" := (bind c (fun _ => k))
  (at level 61, right associativity).

(** ** Tool arguments: JSON values

    Filters and pipelines reach the tools as decoded JSON (the argument
    schemas are [z.record(z.unknown())] and an array of such records). An
    object is the sequence [Object.entries] enumerates. *)

Module Json.

Inductive json : Type :=
| JNull
| JBool (b : bool)
| JNum (n : number)
| JStr (s : string)
| JArr (items : list json)
| JObj (entries : list (string * json)).

(** [Record<string, unknown>]. *)
Definition record : Type := list (string * json).

Definition Object_keys (o : record) : list string := map fst o.

(** Own-property membership, and [o[key]]. *)
Definition has_key (key : string) (o : record) : bool :=
  existsb (fun kv => String.eqb key (fst kv)) o.

Fixpoint get (key : string) (o : record) : option json :=
  match o with
  | [] => None
  | (k, v) :: rest => if String.eqb key k then Some v else get key rest
  end.

(** ToBoolean. *)
Definition truthy (v : json) : bool :=
  match v with
  | JNull => false
  | JBool b => b
  | JNum n => truthy_number n
  | JStr s => truthy_string s
  | JArr _ | JObj _ => true
  end.

(** [key in v] for a key that no prototype defines (the sources use it
    with ["$lookup"], ["pipeline"] and ["$limit"] only): own properties of
    an object; indices and [length] of an array; a [TypeError] when the
    right-hand side is not an object. *)
Definition js_in (key : string) (v : json) : result bool :=
  match v with
  | JObj o => Ok (has_key key o)
  | JArr items =>
      Ok (String.eqb key "length"
          || existsb (fun i => String.eqb key (string_of_nat i))
                     (seq 0 (List.length items)))
  | _ => Throw TypeError
  end.

(** Structural induction through arrays and objects. *)
Section Induction.
Variable P : json -> Prop.
Hypothesis Pnull : P JNull.
Hypothesis Pbool : forall b, P (JBool b).
Hypothesis Pnum : forall n, P (JNum n).
Hypothesis Pstr : forall s, P (JStr s).
Hypothesis Parr : forall items, (forall v, In v items -> P v) -> P (JArr items).
Hypothesis Pobj :
  forall entries, (forall k v, In (k, v) entries -> P v) -> P (JObj entries).

Fixpoint json_deep_ind (j : json) : P j :=
  match j with
  | JNull => Pnull
  | JBool b => Pbool b
  | JNum n => Pnum n
  | JStr s => Pstr s
  | JArr items =>
      Parr items
        ((fix all (l : list json) : forall v, In v l -> P v :=
            match l with
            | [] => fun v (H : In v []) => match H with end
            | x :: r => fun v (H : In v (x :: r)) =>
                match H with
                | or_introl e => eq_ind x P (json_deep_ind x) v e
                | or_intror H' => all r v H'
                end
            end) items)
  | JObj entries =>
      Pobj entries
        ((fix all (l : list (string * json))
            : forall k v, In (k, v) l -> P v :=
            match l with
            | [] => fun k v (H : In (k, v) []) => match H with end
            | x :: r => fun k v (H : In (k, v) (x :: r)) =>
                match H with
                | or_introl e =>
                    eq_ind (snd x) P (json_deep_ind (snd x)) v
                           (f_equal snd e)
                | or_intror H' => all r k v H'
                end
            end) entries)
  end.
End Induction.

(** [k] is a key of some mapping inside [v], at any depth. *)
Inductive key_occurs (k : string) : json -> Prop :=
| occurs_key : forall entries v,
    In (k, v) entries -> key_occurs k (JObj entries)
| occurs_in_value : forall entries k' v,
    In (k', v) entries -> key_occurs k v -> key_occurs k (JObj entries)
| occurs_in_item : forall items v,
    In v items -> key_occurs k v -> key_occurs k (JArr items).

End Json.
Import Json.

(** ** security.ts *)

Module Security.

(** [SECURITY_LIMITS]. *)
Record limits : Type := {
  maxTimeMS : Z;
  maxLimit : number;
  defaultLimit : number;
  maxSampleSize : number;
  defaultSampleSize : number
}.

Definition SECURITY_LIMITS : limits := {|
  maxTimeMS := 30000%Z;
  maxLimit := of_Z 100%Z;
  defaultLimit := of_Z 10%Z;
  maxSampleSize := of_Z 1000%Z;
  defaultSampleSize := of_Z 100%Z
|}.

Definition PROHIBITED_FILTER_OPERATORS : list string :=
  ["$where"; "$function"; "$accumulator"].

Definition PROHIBITED_STAGES : list string :=
  ["$out"; "$merge"; "$function"; "$accumulator"].

(** [containsProhibitedOperator(obj, prohibited)]: [null] is [None].  The
    two [for] loops are the two local fixpoints; [if (found) return found]
    tests the truthiness of the string that came back. *)
Fixpoint containsProhibitedOperator (obj : json) (prohibited : list string)
  : option string :=
  match obj with
  | JNull => None
  | JBool _ | JNum _ | JStr _ => None
  | JArr items =>
      (fix for_items (l : list json) : option string :=
         match l with
         | [] => None
         | item :: rest =>
             match containsProhibitedOperator item prohibited with
             | Some found =>
                 if truthy_string found then Some found else for_items rest
             | None => for_items rest
             end
         end) items
  | JObj entries =>
      (fix for_entries (l : list (string * json)) : option string :=
         match l with
         | [] => None
         | (key, value) :: rest =>
             if includes prohibited key then Some key
             else
               match containsProhibitedOperator value prohibited with
               | Some found =>
                   if truthy_string found then Some found
                   else for_entries rest
               | None => for_entries rest
               end
         end) entries
  end.

Definition filter_message (prohibited : string) : string :=
  ("Prohibited operator " ++ dq ++ prohibited ++ dq ++ " found in filter. "
   ++ "The following operators are not allowed: "
   ++ join ", " PROHIBITED_FILTER_OPERATORS)%string.

(** [validateFilter(filter)]. *)
Definition validateFilter (filter : json) : result unit :=
  match containsProhibitedOperator filter PROHIBITED_FILTER_OPERATORS with
  | Some prohibited =>
      if truthy_string prohibited
      then Throw (Error (filter_message prohibited))
      else Ok tt
  | None => Ok tt
  end.

Definition stage_message (key : string) : string :=
  ("Prohibited stage " ++ dq ++ key ++ dq ++ " found in pipeline. "
   ++ "The following stages are not allowed: "
   ++ join ", " PROHIBITED_STAGES)%string.

Definition lookup_message : string :=
  ("$lookup with pipeline is not allowed for security reasons. "
   ++ "Use $lookup with localField/foreignField instead.")%string.

Definition operator_message (prohibited : string) : string :=
  ("Prohibited operator " ++ dq ++ prohibited ++ dq
   ++ " found in pipeline stage. "
   ++ "Code execution operators are not allowed.")%string.

(** The inner [for (const key of stageKeys)] loop. *)
Fixpoint check_stage_keys (stageKeys : list string) : result unit :=
  match stageKeys with
  | [] => Ok tt
  | key :: rest =>
      if includes PROHIBITED_STAGES key
      then Throw (Error (stage_message key))
      else check_stage_keys rest
  end.

(** The [$lookup] block: [lookup && "pipeline" in lookup] evaluates the
    membership test only when [lookup] is truthy. *)
Definition check_lookup (stage : record) : result unit :=
  if has_key "$lookup" stage then
    match get "$lookup" stage with
    | Some lookup =>
        if truthy lookup then
          has_pipeline <- js_in "pipeline" lookup ;;
          if (has_pipeline : bool) then Throw (Error lookup_message)
          else Ok tt
        else Ok tt
    | None => Ok tt
    end
  else Ok tt.

(** The recursive scan of one stage for the code-execution operators. *)
Definition check_stage_content (stage : record) : result unit :=
  match containsProhibitedOperator (JObj stage)
                                   ["$function"; "$accumulator"] with
  | Some prohibited =>
      if truthy_string prohibited
      then Throw (Error (operator_message prohibited))
      else Ok tt
  | None => Ok tt
  end.

(** [validatePipeline(pipeline)]: the body of the outer loop, in order. *)
Fixpoint validatePipeline (pipeline : list record) : result unit :=
  match pipeline with
  | [] => Ok tt
  | stage :: rest =>
      let stageKeys := Object_keys stage in
      check_stage_keys stageKeys ;;;
      check_lookup stage ;;;
      check_stage_content stage ;;;
      validatePipeline rest
  end.

(** [applyLimit(requestedLimit?)]: an absent argument is [None]. *)
Definition applyLimit (requestedLimit : option number) : number :=
  match requestedLimit with
  | None => defaultLimit SECURITY_LIMITS
  | Some requestedLimit =>
      if num_le requestedLimit (of_Z 0%Z) then defaultLimit SECURITY_LIMITS
      else Math_min requestedLimit (maxLimit SECURITY_LIMITS)
  end.

(** [applySampleSize(requestedSize?)]. *)
Definition applySampleSize (requestedSize : option number) : number :=
  match requestedSize with
  | None => defaultSampleSize SECURITY_LIMITS
  | Some requestedSize =>
      if num_le requestedSize (of_Z 0%Z)
      then defaultSampleSize SECURITY_LIMITS
      else Math_min requestedSize (maxSampleSize SECURITY_LIMITS)
  end.

End Security.
Import Security.

(** ** Documents: values of the extended (BSON) type system

    The variants are the ones [getBsonType] and [extractFields] tell apart.
    [VObject] stands for every other object, by the entries
    [Object.entries] enumerates; [VBinary] for an [ArrayBuffer] view (a
    [Buffer] or [Uint8Array]) by its bytes. *)

Module Bson.

Inductive value : Type :=
| VNull
| VUndefined
| VObjectId (hex : string)
| VDate (ms : Z)
| VRegExp (source flags : string)
| VBinary (bytes : list Byte.byte)
| VArray (items : list value)
| VObject (entries : list (string * value))
| VNumber (n : number)
| VBoolean (b : bool)
| VString (s : string)
| VBigInt (z : Z)
| VFunction
| VSymbol.

(** The [typeof] operator. *)
Definition typeof (v : value) : string :=
  match v with
  | VUndefined => "undefined"
  | VNumber _ => "number"
  | VBoolean _ => "boolean"
  | VString _ => "string"
  | VBigInt _ => "bigint"
  | VFunction => "function"
  | VSymbol => "symbol"
  | VNull | VObjectId _ | VDate _ | VRegExp _ _ | VBinary _
  | VArray _ | VObject _ => "object"
  end.

Definition is_null (v : value) : bool :=
  match v with VNull => true | _ => false end.
Definition is_undefined (v : value) : bool :=
  match v with VUndefined => true | _ => false end.
Definition instanceof_ObjectId (v : value) : bool :=
  match v with VObjectId _ => true | _ => false end.
Definition instanceof_Date (v : value) : bool :=
  match v with VDate _ => true | _ => false end.
Definition instanceof_RegExp (v : value) : bool :=
  match v with VRegExp _ _ => true | _ => false end.
Definition ArrayBuffer_isView (v : value) : bool :=
  match v with VBinary _ => true | _ => false end.
Definition Array_isArray (v : value) : bool :=
  match v with VArray _ => true | _ => false end.

(** [Object.entries] of an [ArrayBuffer] view: one entry per index, the
    byte as a number. *)
Fixpoint view_entries_from (i : nat) (bytes : list Byte.byte)
  : list (string * value) :=
  match bytes with
  | [] => []
  | b :: rest =>
      (string_of_nat i, VNumber (of_Z (Z.of_nat (Byte.to_nat b))))
        :: view_entries_from (S i) rest
  end.

Definition view_entries (bytes : list Byte.byte) : list (string * value) :=
  view_entries_from 0 bytes.

(** Structural induction through the entries of objects. *)
Section Induction.
Variable P : value -> Prop.
Hypothesis Pother : forall v, (forall entries, v <> VObject entries) -> P v.
Hypothesis Pobject :
  forall entries, (forall k v, In (k, v) entries -> P v) ->
                  P (VObject entries).

Fixpoint value_deep_ind (v : value) : P v :=
  match v with
  | VObject entries =>
      Pobject entries
        ((fix all (l : list (string * value))
            : forall k w, In (k, w) l -> P w :=
            match l with
            | [] => fun k w (H : In (k, w) []) => match H with end
            | x :: r => fun k w (H : In (k, w) (x :: r)) =>
                match H with
                | or_introl e =>
                    eq_ind (snd x) P (value_deep_ind (snd x)) w
                           (f_equal snd e)
                | or_intror H' => all r k w H'
                end
            end) entries)
  | VNull => Pother VNull ltac:(intros; discriminate)
  | VUndefined => Pother VUndefined ltac:(intros; discriminate)
  | VObjectId hex => Pother (VObjectId hex) ltac:(intros; discriminate)
  | VDate ms => Pother (VDate ms) ltac:(intros; discriminate)
  | VRegExp src fl => Pother (VRegExp src fl) ltac:(intros; discriminate)
  | VBinary bytes => Pother (VBinary bytes) ltac:(intros; discriminate)
  | VArray items => Pother (VArray items) ltac:(intros; discriminate)
  | VNumber n => Pother (VNumber n) ltac:(intros; discriminate)
  | VBoolean b => Pother (VBoolean b) ltac:(intros; discriminate)
  | VString s => Pother (VString s) ltac:(intros; discriminate)
  | VBigInt z => Pother (VBigInt z) ltac:(intros; discriminate)
  | VFunction => Pother VFunction ltac:(intros; discriminate)
  | VSymbol => Pother VSymbol ltac:(intros; discriminate)
  end.
End Induction.

End Bson.
Import Bson.

(** ** A JavaScript [Map] with string keys

    Entries are kept in insertion order; [set] on a key that is present
    replaces the value where the key stands. *)

Module JsMap.

Definition t (V : Type) : Type := list (string * V).

Definition empty {V : Type} : t V := [].

Fixpoint set {V : Type} (m : t V) (key : string) (v : V) : t V :=
  match m with
  | [] => [(key, v)]
  | (k, w) :: rest =>
      if String.eqb key k then (k, v) :: rest else (k, w) :: set rest key v
  end.

Fixpoint get {V : Type} (m : t V) (key : string) : option V :=
  match m with
  | [] => None
  | (k, w) :: rest => if String.eqb key k then Some w else get rest key
  end.

Definition has {V : Type} (m : t V) (key : string) : bool :=
  match get m key with Some _ => true | None => false end.

Definition keys {V : Type} (m : t V) : list string := map fst m.
Definition values {V : Type} (m : t V) : list V := map snd m.

End JsMap.

(** ** A plain JavaScript object used as a record of results

    The own properties in the order [Object.keys] lists them: the array
    indices first, in ascending numeric order, then the other keys in the
    order they were created.  An assignment [o[key] = v] to a key the
    object has replaces the value where the key stands; an assignment to
    [__proto__] reaches the setter of [Object.prototype], which replaces
    the prototype and makes no own property. *)

Module JsObject.

Definition t (V : Type) : Type := list (string * V).

(** The array index a key is: the canonical decimal form of an integer
    below 2^32 - 1. *)
Definition array_index (key : string) : option N :=
  match NilZero.uint_of_string key with
  | Some u =>
      let n := N.of_uint u in
      if String.eqb (NilZero.string_of_uint (N.to_uint n)) key
         && N.ltb n 4294967295
      then Some n
      else None
  | None => None
  end.

(** A new property with the array index [n] takes its place among the
    array indices. *)
Fixpoint insert_index {V : Type} (n : N) (key : string) (v : V) (o : t V)
  : t V :=
  match o with
  | [] => [(key, v)]
  | (k, w) :: rest =>
      match array_index k with
      | Some m =>
          if N.ltb n m then (key, v) :: (k, w) :: rest
          else (k, w) :: insert_index n key v rest
      | None => (key, v) :: (k, w) :: rest
      end
  end.

(** [o[key] = v], for a value [v] that is an object. *)
Definition set {V : Type} (o : t V) (key : string) (v : V) : t V :=
  if String.eqb key "__proto__" then o
  else if JsMap.has o key then JsMap.set o key v
  else
    match array_index key with
    | Some n => insert_index n key v o
    | None => o ++ [(key, v)]
    end.

End JsObject.

(** ** tools/collectionSchema.ts *)

Module CollectionSchema.

(** [interface FieldSchema]. *)
Record FieldSchema : Type := {
  types : list string;
  percentage : float
}.

(** [SchemaResult]: the own properties of the result object, in the
    order [Object.keys] lists them. *)
Definition SchemaResult : Type := list (string * FieldSchema).

(** [getBsonType(value)]. *)
Definition getBsonType (value : value) : string :=
  if is_null value then "null"
  else if is_undefined value then "undefined"
  else if instanceof_ObjectId value then "ObjectId"
  else if instanceof_Date value then "Date"
  else if instanceof_RegExp value then "RegExp"
  else if ArrayBuffer_isView value then "Binary"
  else if Array_isArray value then "Array"
  else
    let type := typeof value in
    if String.eqb type "object" then "Object"
    else if String.eqb type "number" then
      match value with
      | VNumber n => if Number_isInteger n then "Int" else "Double"
      | _ => "Double"
      end
    else if String.eqb type "boolean" then "Boolean"
    else if String.eqb type "string" then "String"
    else if String.eqb type "bigint" then "Long"
    else "Unknown".

(** [prefix ? `${prefix}.${key}` : key]. *)
Definition fieldPath_of (prefix key : string) : string :=
  if truthy_string prefix then (prefix ++ "." ++ key)%string else key.

(** The condition under which [extractFields] recurses into a value. *)
Definition is_nested_object (value : value) : bool :=
  negb (is_null value)
  && String.eqb (typeof value) "object"
  && negb (Array_isArray value)
  && negb (instanceof_ObjectId value)
  && negb (instanceof_Date value)
  && negb (instanceof_RegExp value).

(** [for (const [nestedPath, nestedType] of nestedFields) fields.set(..)]. *)
Definition set_all (fields nestedFields : JsMap.t string) : JsMap.t string :=
  fold_left (fun fs (e : string * string) => JsMap.set fs (fst e) (snd e))
            nestedFields fields.

(** One iteration of the loop of [extractFields]; [nestedFields] is what
    the recursive call returns for [value], used when [value] is a nested
    object. *)
Definition extract_entry (prefix : string) (fields : JsMap.t string)
           (key : string) (value : value) (nestedFields : JsMap.t string)
  : JsMap.t string :=
  let fieldPath := fieldPath_of prefix key in
  let type := getBsonType value in
  let fields := JsMap.set fields fieldPath type in
  if is_nested_object value then set_all fields nestedFields else fields.

(** [extractFields(doc, prefix)].  The loop runs over [Object.entries(doc)]:
    the entries of an object, the indexed bytes of an [ArrayBuffer] view
    (numbers, which the recursion condition rejects), and nothing for any
    other value. *)
Fixpoint extractFields (doc : value) (prefix : string) : JsMap.t string :=
  match doc with
  | VObject entries =>
      fold_left
        (fun fields e =>
           let '(key, value) := e in
           extract_entry prefix fields key value
                         (extractFields value (fieldPath_of prefix key)))
        entries JsMap.empty
  | VBinary bytes =>
      fold_left
        (fun fields e =>
           let '(key, value) := e in
           extract_entry prefix fields key value JsMap.empty)
        (view_entries bytes) JsMap.empty
  | _ => JsMap.empty
  end.

(** [(typeCounts.get(type) || 0)]. *)
Definition get_or_0 (typeCounts : JsMap.t nat) (type : string) : nat :=
  match JsMap.get typeCounts type with
  | Some n => n
  | None => 0
  end.

(** The body of the inner loop of [inferSchema]: one [(fieldPath, type)]
    pair of one document. *)
Definition tally (fieldStats : JsMap.t (JsMap.t nat)) (e : string * string)
  : JsMap.t (JsMap.t nat) :=
  let fieldPath := fst e in
  let type := snd e in
  let fieldStats :=
    if negb (JsMap.has fieldStats fieldPath)
    then JsMap.set fieldStats fieldPath JsMap.empty
    else fieldStats in
  match JsMap.get fieldStats fieldPath with
  | Some typeCounts =>
      JsMap.set fieldStats fieldPath
        (JsMap.set typeCounts type (get_or_0 typeCounts type + 1))
  | None => fieldStats
  end.

(** The outer loop: all sampled documents. *)
Definition collect (documents : list value) : JsMap.t (JsMap.t nat) :=
  fold_left
    (fun fieldStats doc => fold_left tally (extractFields doc "") fieldStats)
    documents JsMap.empty.

(** [Array.prototype.sort()] on strings: ascending by code units. *)
Fixpoint insert_sorted (x : string) (l : list string) : list string :=
  match l with
  | [] => [x]
  | y :: rest =>
      if String.leb x y then x :: y :: rest else y :: insert_sorted x rest
  end.

Definition Array_sort (l : list string) : list string :=
  fold_right insert_sorted [] l.

(** [values.reduce((a, b) => a + b, 0)]. *)
Definition sum (l : list nat) : nat := fold_left Nat.add l 0.

(** [Math.round((totalOccurrences / totalDocs) * 100)], in binary64. *)
Definition percentage_of (totalOccurrences totalDocs : nat) : float :=
  Math_round
    ((number_of_nat totalOccurrences / number_of_nat totalDocs) * 100)%float.

Definition field_schema (totalDocs : nat) (typeCounts : JsMap.t nat)
  : FieldSchema := {|
  types := Array_sort (JsMap.keys typeCounts);
  percentage := percentage_of (sum (JsMap.values typeCounts)) totalDocs
|}.

(** [inferSchema(documents)]. *)
Definition inferSchema (documents : list value) : SchemaResult :=
  if Nat.eqb (List.length documents) 0 then []
  else
    let totalDocs := List.length documents in
    let fieldStats := collect documents in
    fold_left
      (fun schema e =>
         JsObject.set schema (fst e) (field_schema totalDocs (snd e)))
      fieldStats [].

End CollectionSchema.
Import CollectionSchema.

(** ** serializer.ts

    [EJSON.stringify] belongs to the [bson] package; it stays a parameter. *)

Module Serializer.

(** One content item of a tool response. *)
Record text_item : Type := {
  type : string;
  text : string
}.

Definition textContent (text : string) : text_item :=
  {| type := "text"; text := text |}.

Section WithEJSON.
(** [EJSON.stringify(docs, { relaxed }, space)]. *)
Variable EJSON_stringify : list value -> bool -> nat -> string.

Definition serialize (docs : list value) : string :=
  EJSON_stringify docs true 2.

(** [formatDocuments(message, docs)]. *)
Definition formatDocuments (message : string) (docs : list value)
  : list text_item :=
  let content := [textContent message] in
  if Nat.ltb 0 (List.length docs)
  then content ++ [textContent (serialize docs)]
  else content.
End WithEJSON.

End Serializer.
Import Serializer.

(** ** client.ts *)

Module Client.

(** [process.env], as far as the client reads it. *)
Record environment : Type := {
  MONGODB_URI : option string;
  MONGODB_DB : option string
}.

(** [!process.env.X]: unset or empty. *)
Definition unset (x : option string) : bool :=
  match x with
  | Some s => negb (truthy_string s)
  | None => true
  end.

Definition env_value (x : option string) : string :=
  match x with Some s => s | None => "" end.

(** A database handle, by the name it was opened with. *)
Definition Db : Type := string.

Section WithDriver.
(** [MongoClient.connect(uri, ...)] (or the client kept from an earlier
    invocation): succeeds or fails. *)
Variable connect : string -> result unit.

Definition getMongoClient (env : environment) : result unit :=
  if unset (MONGODB_URI env)
  then Throw (Error "MONGODB_URI environment variable is not set")
  else connect (env_value (MONGODB_URI env)).

Definition getDatabase (env : environment) : result Db :=
  if unset (MONGODB_DB env)
  then Throw (Error "MONGODB_DB environment variable is not set")
  else
    getMongoClient env ;;;
    Ok (env_value (MONGODB_DB env)).
End WithDriver.

Definition getDatabaseName (env : environment) : result string :=
  if unset (MONGODB_DB env)
  then Throw (Error "MONGODB_DB environment variable is not set")
  else Ok (env_value (MONGODB_DB env)).

End Client.
Import Client.

(** ** tools/aggregate.ts *)

Module Aggregate.

(** [AggregateArgs]. *)
Record AggregateArgs : Type := {
  collection : string;
  pipeline : list record
}.

(** [db.collection(c).aggregate(p, { maxTimeMS })], as the client sees it. *)
Record aggregate_call : Type := {
  call_db : Db;
  call_collection : string;
  call_pipeline : list record;
  call_maxTimeMS : Z
}.

(** A tool run: the calls issued to the database client, in order, and
    the outcome. *)
Definition io (A : Type) : Type := (list aggregate_call * result A)%type.

Definition lift {A : Type} (r : result A) : io A := ([], r).

Definition io_bind {A B : Type} (c : io A) (k : A -> io B) : io B :=
  match c with
  | (calls, Ok a) => let (calls', r) := k a in (calls ++ calls', r)
  | (calls, Throw e) => (calls, Throw e)
  end.

(** [pipeline.some((stage) => "$limit" in stage)]. *)
Definition hasLimitStage (pipeline : list record) : bool :=
  existsb (fun stage => has_key "$limit" stage) pipeline.

(** The status line. *)
Definition message_of (dbName collection : string) (documents : list value)
  : string :=
  if Nat.eqb (List.length documents) 0
  then ("Aggregation on " ++ dq ++ dbName ++ "." ++ collection ++ dq
        ++ " returned no results")%string
  else ("Aggregation on " ++ dq ++ dbName ++ "." ++ collection ++ dq
        ++ " returned " ++ string_of_nat (List.length documents)
        ++ " document"
        ++ (if Nat.eqb (List.length documents) 1 then "" else "s"))%string.

Section WithCollaborators.
Variable connect : string -> result unit.
(** [cursor.toArray()] for a given call: the documents or a failure. *)
Variable toArray : aggregate_call -> result (list value).
Variable EJSON_stringify : list value -> bool -> nat -> string.
Variable env : environment.

Definition run_aggregate (c : aggregate_call) : io (list value) :=
  ([c], toArray c).

(** [aggregateTool(args)]. *)
Definition aggregateTool (args : AggregateArgs) : io (list text_item) :=
  let collection := collection args in
  let pipeline := pipeline args in
  io_bind (lift (validatePipeline pipeline)) (fun _ =>
  io_bind (lift (getDatabase connect env)) (fun db =>
  io_bind (lift (getDatabaseName env)) (fun dbName =>
  let effectivePipeline := pipeline in
  let effectivePipeline :=
    if negb (hasLimitStage effectivePipeline)
    then effectivePipeline
           ++ [[("$limit",
                 JNum (applyLimit (Some (maxLimit SECURITY_LIMITS))))]]
    else effectivePipeline in
  io_bind (run_aggregate
             {| call_db := db;
                call_collection := collection;
                call_pipeline := effectivePipeline;
                call_maxTimeMS := maxTimeMS SECURITY_LIMITS |})
          (fun documents =>
  let message := message_of dbName collection documents in
  lift (Ok (formatDocuments EJSON_stringify message documents)))))).
End WithCollaborators.

End Aggregate.
Import Aggregate.

(** ** Tool runs in general

    The calls a tool issues to the database client, in order, and its
    outcome; [Aggregate.io] is the instance for [aggregate_call]. *)

Module Run.

Definition io (C A : Type) : Type := (list C * result A)%type.

Definition lift {C A : Type} (r : result A) : io C A := ([], r).

(** A call to the database client, answered by [answer]. *)
Definition call {C A : Type} (answer : C -> result A) (c : C) : io C A :=
  ([c], answer c).

Definition io_bind {C A B : Type} (c : io C A) (k : A -> io C B) : io C B :=
  match c with
  | (calls, Ok a) => let (calls', r) := k a in (calls ++ calls', r)
  | (calls, Throw e) => (calls, Throw e)
  end.

End Run.

(** ** app/mcp/route.ts *)

Module Route.

(** A [Response], as far as the route builds one. *)
Record Response : Type := {
  status : nat;
  headers : list (string * string);
  body : string
}.

(** [JSON.stringify({ error: message })], for a message without a
    character that JSON escapes. *)
Definition error_body (message : string) : string :=
  ("{" ++ dq ++ "error" ++ dq ++ ":" ++ dq ++ message ++ dq ++ "}")%string.

Definition error_response (message : string) (status : nat) : Response :=
  {| status := status;
     headers := [("Content-Type", "application/json")];
     body := error_body message |}.

Section WithRequest.
Variable Request : Type.
(** [request.headers.get(name)]. *)
Variable headers_get : Request -> string -> option string.
(** [process.env.API_KEY]. *)
Variable API_KEY : option string.
(** The handler [createMcpHandler] returns. *)
Variable mcpHandler : Request -> result Response.

(** [validateApiKey(request)]: a response to send, or [None] for [null]. *)
Definition validateApiKey (request : Request) : option Response :=
  let apiKey := headers_get request "X-API-Key" in
  let expectedKey := API_KEY in
  if unset expectedKey then
    Some (error_response "API_KEY environment variable is not configured" 500)
  else if unset apiKey then
    Some (error_response "Missing X-API-Key header" 401)
  else if negb (String.eqb (env_value apiKey) (env_value expectedKey)) then
    Some (error_response "Invalid API key" 401)
  else None.

(** [handler(request)]. *)
Definition handler (request : Request) : result Response :=
  match validateApiKey request with
  | Some authError => Ok authError
  | None => mcpHandler request
  end.
End WithRequest.

End Route.

(** ** client.ts, with the module's two variables

    [client] and [clientPromise] outlive an invocation.  Invocations are
    taken one after the other, each awaited to its end, so that a promise
    stored by one is settled when the next one reads it.  A client is
    known by the URI it was connected with; [connections] records the calls
    of [MongoClient.connect]. *)

Module Singleton.

Definition MongoClient : Type := string.

Record module_state : Type := {
  client : option MongoClient;
  clientPromise : option (result MongoClient);
  connections : list string
}.

(** The state of a freshly loaded module. *)
Definition loaded : module_state :=
  {| client := None; clientPromise := None; connections := [] |}.

(** [client.db(dbName)]. *)
Record Db : Type := {
  db_client : MongoClient;
  db_name : string
}.

Section WithDriver.
(** [MongoClient.connect(uri, ...)]: whether it succeeds may depend on the
    URI and on how many connections were attempted before. *)
Variable connect : nat -> string -> result unit.

Definition getMongoClient (env : environment) (st : module_state)
  : module_state * result MongoClient :=
  let uri := MONGODB_URI env in
  if unset uri
  then (st, Throw (Error "MONGODB_URI environment variable is not set"))
  else
    match client st with
    | Some c => (st, Ok c)
    | None =>
        match clientPromise st with
        | Some settled => (st, settled)
        | None =>
            let uri := env_value uri in
            match connect (List.length (connections st)) uri with
            | Ok _ =>
                ({| client := Some uri;
                    clientPromise := Some (Ok uri);
                    connections := connections st ++ [uri] |},
                 Ok uri)
            | Throw e =>
                ({| client := client st;
                    clientPromise := Some (Throw e);
                    connections := connections st ++ [uri] |},
                 Throw e)
            end
        end
    end.

Definition getDatabase (env : environment) (st : module_state)
  : module_state * result Db :=
  let dbName := MONGODB_DB env in
  if unset dbName
  then (st, Throw (Error "MONGODB_DB environment variable is not set"))
  else
    let (st, mongoClient) := getMongoClient env st in
    (st,
     mongoClient <- mongoClient ;;
     Ok {| db_client := mongoClient; db_name := env_value dbName |}).
End WithDriver.

End Singleton.

(** ** tools/find.ts *)

Module Find.

(** [FindArgs]. *)
Record FindArgs : Type := {
  collection : string;
  filter : record;
  projection : option record;
  limit : option number;
  sort : option record
}.

(** [db.collection(c).find(filter, options)], as the client sees it. *)
Record find_call : Type := {
  call_db : Db;
  call_collection : string;
  call_filter : record;
  call_projection : option record;
  call_sort : option record;
  call_limit : number;
  call_maxTimeMS : Z
}.

(** [documents.length === effectiveLimit]. *)
Definition length_is (n : nat) (effectiveLimit : number) : bool :=
  match effectiveLimit with
  | Fin q => Qeq_bool (inject_Z (Z.of_nat n)) q
  | _ => false
  end.

(** The status line; [effectiveLimit] is printed only where it equals the
    number of documents. *)
Definition message_of (dbName collection : string) (documents : list value)
           (effectiveLimit : number) : string :=
  if Nat.eqb (List.length documents) 0
  then ("No documents found in " ++ dq ++ dbName ++ "." ++ collection ++ dq)
         %string
  else (("Found " ++ string_of_nat (List.length documents) ++ " document"
         ++ (if Nat.eqb (List.length documents) 1 then "" else "s")
         ++ " in " ++ dq ++ dbName ++ "." ++ collection ++ dq)
        ++ (if length_is (List.length documents) effectiveLimit
            then " (limited to " ++ string_of_nat (List.length documents)
                 ++ ")"
            else ""))%string.

Section WithCollaborators.
Variable connect : string -> result unit.
(** [cursor.toArray()] for a given call. *)
Variable toArray : find_call -> result (list value).
Variable EJSON_stringify : list value -> bool -> nat -> string.
Variable env : environment.

(** [findTool(args)]. *)
Definition findTool (args : FindArgs) : Run.io find_call (list text_item) :=
  let collection := collection args in
  let filter := filter args in
  Run.io_bind (Run.lift (validateFilter (JObj filter))) (fun _ =>
  Run.io_bind (Run.lift (getDatabase connect env)) (fun db =>
  Run.io_bind (Run.lift (getDatabaseName env)) (fun dbName =>
  let effectiveLimit := applyLimit (limit args) in
  Run.io_bind (Run.call toArray
                 {| call_db := db;
                    call_collection := collection;
                    call_filter := filter;
                    call_projection := projection args;
                    call_sort := sort args;
                    call_limit := effectiveLimit;
                    call_maxTimeMS := maxTimeMS SECURITY_LIMITS |})
              (fun documents =>
  let message := message_of dbName collection documents effectiveLimit in
  Run.lift (Ok (formatDocuments EJSON_stringify message documents)))))).
End WithCollaborators.

End Find.

(** ** tools/count.ts *)

Module Count.

(** [CountArgs]. *)
Record CountArgs : Type := {
  collection : string;
  filter : record
}.

(** [db.collection(c).countDocuments(filter, { maxTimeMS })]. *)
Record count_call : Type := {
  call_db : Db;
  call_collection : string;
  call_filter : record;
  call_maxTimeMS : Z
}.

Section WithCollaborators.
Variable connect : string -> result unit.
Variable countDocuments : count_call -> result nat.
(** [count.toLocaleString()]: the digits, grouped as the locale has it. *)
Variable toLocaleString : nat -> string.
Variable env : environment.

(** [countTool(args)]. *)
Definition countTool (args : CountArgs) : Run.io count_call (list text_item) :=
  let collection := collection args in
  let filter := filter args in
  Run.io_bind (Run.lift (validateFilter (JObj filter))) (fun _ =>
  Run.io_bind (Run.lift (getDatabase connect env)) (fun db =>
  Run.io_bind (Run.lift (getDatabaseName env)) (fun dbName =>
  Run.io_bind (Run.call countDocuments
                 {| call_db := db;
                    call_collection := collection;
                    call_filter := filter;
                    call_maxTimeMS := maxTimeMS SECURITY_LIMITS |})
              (fun count =>
  let filterDesc :=
    if Nat.ltb 0 (List.length (Object_keys filter))
    then " matching the filter" else "" in
  Run.lift (Ok [textContent
                  ("Found " ++ toLocaleString count ++ " document"
                   ++ (if Nat.eqb count 1 then "" else "s")
                   ++ filterDesc ++ " in " ++ dq ++ dbName ++ "."
                   ++ collection ++ dq)%string]))))).
End WithCollaborators.

End Count.

(** ** tools/listCollections.ts *)

Module ListCollections.

(** [isSystemCollection(name)]. *)
Definition isSystemCollection (name : string) : bool :=
  String.prefix "system." name.

(** The line feed of the template literal and of [join]. *)
Definition lf : string := String (ascii_of_nat 10) EmptyString.

(** A name is held as its UTF-8 bytes, and [sort()] compares strings by
    their UTF-16 code units: the code units of a name.  A byte sequence
    that is no UTF-8 counts as U+FFFD, byte by byte. *)
Definition continuation (c : ascii) : option N :=
  let b := N_of_ascii c in
  if (128 <=? b)%N && (b <? 192)%N then Some (b - 128)%N else None.

(** The code units of a code point: itself, or a surrogate pair. *)
Definition units_of (cp : N) : list N :=
  if (cp <? 65536)%N then [cp]
  else [(55296 + (cp - 65536) / 1024)%N; (56320 + (cp - 65536) mod 1024)%N].

Fixpoint code_units (s : string) : list N :=
  match s with
  | EmptyString => []
  | String c rest =>
      let b := N_of_ascii c in
      if (b <? 128)%N then b :: code_units rest
      else if (b <? 192)%N then 65533%N :: code_units rest
      else
        match rest with
        | String c1 rest1 =>
            match continuation c1 with
            | Some x1 =>
                if (b <? 224)%N
                then units_of ((b - 192) * 64 + x1)%N ++ code_units rest1
                else
                  match rest1 with
                  | String c2 rest2 =>
                      match continuation c2 with
                      | Some x2 =>
                          if (b <? 240)%N
                          then units_of ((b - 224) * 4096 + x1 * 64 + x2)%N
                                 ++ code_units rest2
                          else
                            match rest2 with
                            | String c3 rest3 =>
                                match continuation c3 with
                                | Some x3 =>
                                    units_of ((b - 240) * 262144 + x1 * 4096
                                              + x2 * 64 + x3)%N
                                      ++ code_units rest3
                                | None => 65533%N :: code_units rest
                                end
                            | EmptyString => 65533%N :: code_units rest
                            end
                      | None => 65533%N :: code_units rest
                      end
                  | EmptyString => 65533%N :: code_units rest
                  end
            | None => 65533%N :: code_units rest
            end
        | EmptyString => [65533%N]
        end
  end.

(** [x <= y] on sequences of code units, as [<] on strings has it. *)
Fixpoint units_leb (x y : list N) : bool :=
  match x, y with
  | [], _ => true
  | _ :: _, [] => false
  | a :: x', b :: y' => (a <? b)%N || ((a =? b)%N && units_leb x' y')
  end.

Definition code_unit_leb (a b : string) : bool :=
  units_leb (code_units a) (code_units b).

(** [Array.prototype.sort()] without a comparator, on names: ascending by
    code units, equal names in the order they had. *)
Fixpoint insert_sorted (x : string) (l : list string) : list string :=
  match l with
  | [] => [x]
  | y :: rest =>
      if code_unit_leb x y then x :: y :: rest else y :: insert_sorted x rest
  end.

Definition Array_sort (l : list string) : list string :=
  fold_right insert_sorted [] l.

(** [collections.map((c) => c.name).filter(...).sort()], from the names. *)
Definition userCollections_of (names : list string) : list string :=
  Array_sort (filter (fun name => negb (isSystemCollection name)) names).

Section WithCollaborators.
Variable connect : string -> result unit.
(** [db.listCollections({}, { nameOnly: true }).toArray()], by the [name]
    of each entry. *)
Variable listCollections : Db -> result (list string).
Variable env : environment.

(** [listCollectionsTool(_args)]. *)
Definition listCollectionsTool : result (list text_item) :=
  db <- getDatabase connect env ;;
  dbName <- getDatabaseName env ;;
  collections <- listCollections db ;;
  let userCollections := userCollections_of collections in
  if Nat.eqb (List.length userCollections) 0
  then Ok [textContent
             ("No collections found in database " ++ dq ++ dbName ++ dq)
             %string]
  else
    let collectionList :=
      join lf (map (fun name => "  - " ++ name)%string userCollections) in
    Ok [textContent
          ("Found " ++ string_of_nat (List.length userCollections)
           ++ " collection"
           ++ (if Nat.eqb (List.length userCollections) 1 then "" else "s")
           ++ " in " ++ dq ++ dbName ++ dq ++ ":" ++ lf ++ collectionList)
          %string].
End WithCollaborators.

End ListCollections.

(** ** tools/explain.ts

    The two argument schemas are [zod] objects; their [parse] stays a
    parameter, and so does [explain("executionStats")] of the driver. *)

Module Explain.

Inductive operation_kind : Type := find | aggregate.

(** The printed form of the [operation] argument. *)
Definition operation_name (operation : operation_kind) : string :=
  match operation with
  | find => "find"
  | aggregate => "aggregate"
  end.

(** What [findArgsSchema.parse] returns. *)
Record ParsedFindArgs : Type := {
  filter : record;
  projection : option record;
  sort : option record;
  limit : option number
}.

(** [ExplainArgs]. *)
Record ExplainArgs : Type := {
  collection : string;
  operation : operation_kind;
  operationArgs : json
}.

(** The cursor that is explained. *)
Inductive explain_call : Type :=
| ExplainFind (db : Db) (collection : string) (filter : record)
              (projection sort : option record) (limit : option number)
              (maxTimeMS : Z)
| ExplainAggregate (db : Db) (collection : string) (pipeline : list record)
                   (maxTimeMS : Z).

Section WithCollaborators.
Variable connect : string -> result unit.
Variable findArgsSchema_parse : json -> result ParsedFindArgs.
Variable aggregateArgsSchema_parse : json -> result (list record).
(** [cursor.explain("executionStats")]. *)
Variable explain : explain_call -> result value.
(** [EJSON.stringify(doc, { relaxed }, space)] on one document. *)
Variable EJSON_stringify : value -> bool -> nat -> string.
Variable env : environment.

(** [explainTool(args)]. *)
Definition explainTool (args : ExplainArgs)
  : Run.io explain_call (list text_item) :=
  let collection := collection args in
  let operation := operation args in
  let operationArgs := operationArgs args in
  Run.io_bind (Run.lift (getDatabase connect env)) (fun db =>
  Run.io_bind (Run.lift (getDatabaseName env)) (fun dbName =>
  Run.io_bind
    (match operation with
     | find =>
         Run.io_bind (Run.lift (findArgsSchema_parse operationArgs))
                     (fun findArgs =>
         Run.io_bind (Run.lift (validateFilter (JObj (filter findArgs))))
                     (fun _ =>
         Run.call explain
           (ExplainFind db collection (filter findArgs)
                        (projection findArgs) (sort findArgs)
                        (limit findArgs) (maxTimeMS SECURITY_LIMITS))))
     | aggregate =>
         Run.io_bind (Run.lift (aggregateArgsSchema_parse operationArgs))
                     (fun pipeline =>
         Run.io_bind (Run.lift (validatePipeline pipeline)) (fun _ =>
         Run.call explain
           (ExplainAggregate db collection pipeline
                             (maxTimeMS SECURITY_LIMITS))))
     end)
    (fun explainResult =>
  Run.lift
    (Ok [textContent
           ("Execution plan for " ++ operation_name operation ++ " on "
            ++ dq ++ dbName ++ "." ++ collection ++ dq ++ ":")%string;
         textContent (EJSON_stringify explainResult true 2)])))).
End WithCollaborators.

End Explain.

(** ** tools/collectionSchema.ts: the tool

    [formatSchema] orders its lines with [localeCompare] and prints the
    percentages with the engine's number formatting; the text it returns
    for a schema stays a parameter. *)

Module SchemaTool.

(** [CollectionSchemaArgs]. *)
Record CollectionSchemaArgs : Type := {
  collection : string;
  sampleSize : option number
}.

Section WithCollaborators.
Variable connect : string -> result unit.
Variable toArray : aggregate_call -> result (list value).
Variable formatSchema : SchemaResult -> string.
Variable env : environment.

(** [collectionSchemaTool(args)]. *)
Definition collectionSchemaTool (args : CollectionSchemaArgs)
  : Run.io aggregate_call (list text_item) :=
  let collection := collection args in
  Run.io_bind (Run.lift (getDatabase connect env)) (fun db =>
  Run.io_bind (Run.lift (getDatabaseName env)) (fun dbName =>
  let effectiveSampleSize := applySampleSize (sampleSize args) in
  let pipeline := [[("$sample", JObj [("size", JNum effectiveSampleSize)])]] in
  Run.io_bind (Run.call toArray
                 {| call_db := db;
                    call_collection := collection;
                    call_pipeline := pipeline;
                    call_maxTimeMS := maxTimeMS SECURITY_LIMITS |})
              (fun documents =>
  if Nat.eqb (List.length documents) 0
  then Run.lift
         (Ok [textContent
                ("Collection " ++ dq ++ dbName ++ "." ++ collection ++ dq
                 ++ " is empty or does not exist")%string])
  else
    let schema := inferSchema documents in
    let fieldCount := List.length (JsMap.keys schema) in
    let formattedSchema := formatSchema schema in
    Run.lift
      (Ok [textContent
             ("Schema for " ++ dq ++ dbName ++ "." ++ collection ++ dq
              ++ " (sampled " ++ string_of_nat (List.length documents)
              ++ " document"
              ++ (if Nat.eqb (List.length documents) 1 then "" else "s")
              ++ ", " ++ string_of_nat fieldCount ++ " field"
              ++ (if Nat.eqb fieldCount 1 then "" else "s")
              ++ "):" ++ ListCollections.lf ++ ListCollections.lf
              ++ formattedSchema)%string])))).
End WithCollaborators.

End SchemaTool.

(* ===================================================================== *)
(** * Part II.  The vocabulary of the specification                      *)
(* ===================================================================== *)

(** A message names a key when the key is a substring of it. *)
Definition names (message key : string) : Prop :=
  exists pre post, message = (pre ++ key ++ post)%string.

(** [message.includes(key)], to decide [names] on closed strings. *)
Fixpoint String_includes (message key : string) : bool :=
  String.prefix key message
  || match message with
     | EmptyString => false
     | String _ rest => String_includes rest key
     end.

(** The three scripting operators. *)
Definition scripting_operator (k : string) : Prop :=
  k = "$where" \/ k = "$function" \/ k = "$accumulator".

(** [{ $and: [ { age: 1 }, { $or: [ { $where: "sleep(1)" } ] } ] }] and
    [{ status: "active", tags: { $in: ["a"] } }]. *)
Definition filter_with_where : json :=
  JObj [("$and",
         JArr [JObj [("age", JNum (of_Z 1))];
               JObj [("$or", JArr [JObj [("$where", JStr "sleep(1)")]])]])].

Definition filter_without_operator : json :=
  JObj [("status", JStr "active");
        ("tags", JObj [("$in", JArr [JStr "a"])])].

(** The two write stages and the two code-execution operators. *)
Definition write_stage (k : string) : Prop := k = "$out" \/ k = "$merge".

Definition code_execution_operator (k : string) : Prop :=
  k = "$function" \/ k = "$accumulator".

(** What the [$lookup] block lets through: no [$lookup] key, a falsy value
    under it, an array, or a mapping without a [pipeline] key. *)
Definition lookup_allowed (stage : record) : Prop :=
  match get "$lookup" stage with
  | None => True
  | Some lookup =>
      truthy lookup = false
      \/ (exists items, lookup = JArr items)
      \/ (exists o, lookup = JObj o /\ ~ In "pipeline" (Object_keys o))
  end.

(** A stage no check of the loop body objects to.  Write stages count at
    the top level only; the code-execution operators at every depth. *)
Definition acceptable_stage (stage : record) : Prop :=
  (forall k, In k (Object_keys stage) ->
             ~ (write_stage k \/ code_execution_operator k))
  /\ lookup_allowed stage
  /\ (forall k, code_execution_operator k -> ~ key_occurs k (JObj stage)).

(** [[{ $match: {} }, { $out: "copy" }]],
    [[{ $match: { $out: "copy", x: { $merge: null } } }]] and
    [[{ $addFields: { x: { $function: {} } } }]]. *)
Definition pipeline_with_out : list record :=
  [[("$match", JObj [])]; [("$out", JStr "copy")]].

Definition pipeline_with_nested_out : list record :=
  [[("$match",
     JObj [("$out", JStr "copy"); ("x", JObj [("$merge", JNull)])])]].

Definition pipeline_with_nested_function : list record :=
  [[("$addFields", JObj [("x", JObj [("$function", JObj [])])])]].

(** [[{ $match: {} }, { $lookup: { from: "users", pipeline: [] } }]]: the
    sub-pipeline is empty. *)
Definition lookup_stage_with_pipeline : record :=
  [("$lookup", JObj [("from", JStr "users"); ("pipeline", JArr [])])].

(** The stage the tool appends: [{ $limit: 100 }]. *)
Definition limit_stage : record := [("$limit", JNum (of_Z 100))].

(** A configured environment, a client that answers with no document, and
    the pipelines [[{ $match: {} }]] and [[{ $match: {} }, { $limit: 5 }]]
    on the collection [orders]. *)
Definition env_configured : environment :=
  {| MONGODB_URI := Some "mongodb://localhost"; MONGODB_DB := Some "shop" |}.

Definition args_without_limit : AggregateArgs :=
  {| collection := "orders"; pipeline := [[("$match", JObj [])]] |}.

Definition args_with_limit : AggregateArgs :=
  {| collection := "orders";
     pipeline := [[("$match", JObj [])]; [("$limit", JNum (of_Z 5))]] |}.

(** What the sample says about a path: the kind a document's extraction
    gives it, whether a document has it, and in how many documents it is
    present. *)
Definition kind_in (doc : value) (path kind : string) : Prop :=
  JsMap.get (extractFields doc "") path = Some kind.

Definition has_path (doc : value) (path : string) : bool :=
  JsMap.has (extractFields doc "") path.

Definition presence (documents : list value) (path : string) : nat :=
  List.length (filter (fun doc => has_path doc path) documents).

(** The [typeCounts] of a path ([[]] before the path is first seen) and the
    update one occurrence makes. *)
Definition counts (fieldStats : JsMap.t (JsMap.t nat)) (path : string)
  : JsMap.t nat :=
  match JsMap.get fieldStats path with
  | Some typeCounts => typeCounts
  | None => JsMap.empty
  end.

Definition bump (typeCounts : JsMap.t nat) (type : string) : JsMap.t nat :=
  JsMap.set typeCounts type (get_or_0 typeCounts type + 1).

(** The binary64 number [x] is the integer [p]. *)
Definition is_number (x : float) (p : Z) : Prop :=
  PrimFloat.eqb x (number_of_Z p) = true.

(** The integers [lo], [lo + 1], ..., [lo + len - 1]. *)
Fixpoint Zrange (lo : Z) (len : nat) : list Z :=
  match len with
  | O => []
  | S len' => lo :: Zrange (lo + 1) len'
  end.

(** [(n / N) * 100], in binary64, lies between 0 and 100 and is at least
    0.5 exactly when [N <= 200 * n]; decided for [N] and [n], and for all
    [1 <= n <= N <= M]. *)
Definition percentage_checked (N n : Z) : bool :=
  let y := ((number_of_Z n / number_of_Z N) * 100)%float in
  (0 <=? y)%float && (y <=? 100)%float
  && Bool.eqb (0.5 <=? y)%float (N <=? 200 * n)%Z.

Definition percentages_checked (M : nat) : bool :=
  forallb (fun N => forallb (percentage_checked N) (Zrange 1 (Z.to_nat N)))
          (Zrange 1 M).

(** 250 documents, of which one has the field [a]. *)
Definition sparse_sample : list value :=
  VObject [("a", VNull)] :: repeat (VObject []) 249.







(** [{ b: null, __proto__: null, "10": null, "2": null }], with
    [__proto__] as an own field. *)
Definition index_named_document : value :=
  VObject [("b", VNull); ("__proto__", VNull); ("10", VNull); ("2", VNull)].

(** [{ a: 1 }, { a: "x", b: true }, { a: 2 }, { _id: 7, a: 3 }]. *)
Definition mixed_sample : list value :=
  [VObject [("a", VNumber (of_Z 1))];
   VObject [("a", VString "x"); ("b", VBoolean true)];
   VObject [("a", VNumber (of_Z 2))];
   VObject [("_id", VNumber (of_Z 7)); ("a", VNumber (of_Z 3))]].

(** [{ $match: { $where: "sleep(1)" } }]. *)
Definition match_where_pipeline : list record :=
  [[("$match", JObj [("$where", JStr "sleep(1)")])]].

(** [{ $lookup: { pipeline: [] }, $out: "copy", $function: {} }]. *)
Definition stage_with_several_violations : record :=
  [("$lookup", JObj [("pipeline", JArr [])]);
   ("$out", JStr "copy");
   ("$function", JObj [])].

(** The pipeline the aggregate tool sends for the caller's pipeline. *)
Definition effective_pipeline (pipeline : list record) : list record :=
  if hasLimitStage pipeline then pipeline else pipeline ++ [limit_stage].

(** The call the aggregate tool issues. *)
Definition aggregate_call_of (db : Db) (args : AggregateArgs) : aggregate_call :=
  {| call_db := db;
     call_collection := collection args;
     call_pipeline := effective_pipeline (pipeline args);
     call_maxTimeMS := 30000 |}.

(** [[{ $out: "copy" }]] on the collection [orders]. *)
Definition args_with_out : AggregateArgs :=
  {| collection := "orders"; pipeline := [[("$out", JStr "copy")]] |}.

(** An environment without [MONGODB_DB]. *)
Definition env_without_db : environment :=
  {| MONGODB_URI := Some "mongodb://localhost"; MONGODB_DB := None |}.

(** A request is authorized when [API_KEY] is set to a non-empty key and
    the request carries that key. *)
Definition authorized (API_KEY apiKey : option string) : Prop :=
  exists key, key <> "" /\ API_KEY = Some key /\ apiKey = Some key.

(** The module state after the invocations of [getDatabase] under the
    given environments, one after the other, from a fresh module. *)
Definition state_after (connect : nat -> string -> result unit)
           (envs : list environment) : Singleton.module_state :=
  fold_left (fun st env => fst (Singleton.getDatabase connect env st))
            envs Singleton.loaded.

(** A driver whose first connection times out and that would connect
    from then on. *)
Definition connect_second_time (n : nat) (uri : string) : result unit :=
  if Nat.eqb n 0 then Throw (Error "Server selection timed out") else Ok tt.

Definition env_other_uri : environment :=
  {| MONGODB_URI := Some "mongodb://replica"; MONGODB_DB := Some "shop" |}.

(** The call the find tool issues. *)
Definition find_call_of (db : Db) (args : Find.FindArgs) : Find.find_call :=
  {| Find.call_db := db;
     Find.call_collection := Find.collection args;
     Find.call_filter := Find.filter args;
     Find.call_projection := Find.projection args;
     Find.call_sort := Find.sort args;
     Find.call_limit := applyLimit (Find.limit args);
     Find.call_maxTimeMS := 30000 |}.

(** The call the count tool issues. *)
Definition count_call_of (db : Db) (args : Count.CountArgs)
  : Count.count_call :=
  {| Count.call_db := db;
     Count.call_collection := Count.collection args;
     Count.call_filter := Count.filter args;
     Count.call_maxTimeMS := 30000 |}.

(** No scripting operator key at any depth. *)
Definition free_of_scripting (filter : record) : Prop :=
  forall k, scripting_operator k -> ~ key_occurs k (JObj filter).

(** [{ status: "active" }] with a limit of 250 on [orders], and
    [{ $where: "sleep(1)" }]. *)
Definition find_args_over_limit : Find.FindArgs :=
  {| Find.collection := "orders";
     Find.filter := [("status", JStr "active")];
     Find.projection := None;
     Find.limit := Some (of_Z 250);
     Find.sort := None |}.

Definition count_args_active : Count.CountArgs :=
  {| Count.collection := "orders";
     Count.filter := [("status", JStr "active")] |}.

Definition where_filter : record := [("$where", JStr "sleep(1)")].

(** Ascending by code units, neighbours compared. *)
Definition ascending (l : list string) : Prop :=
  Sorted (fun a b => String.leb a b = true) l.

(** [explain] of a find with the filter [{ $where: "sleep(1)" }]. *)
Definition explain_args_where : Explain.ExplainArgs :=
  {| Explain.collection := "orders";
     Explain.operation := Explain.find;
     Explain.operationArgs := JObj [("filter", JObj where_filter)] |}.


(** Every name is one of a system collection. *)
Definition all_system (names : list string) : Prop :=
  Forall (fun name => String.prefix "system." name = true) names.

(** Ascending by UTF-16 code units: every name is at most every later
    one. *)
Definition ascending_code_units (l : list string) : Prop :=
  StronglySorted (fun a b => ListCollections.code_unit_leb a b = true) l.

(** A string from its bytes; U+FF5E and U+1F600 in UTF-8. *)
Definition string_of_bytes (bytes : list nat) : string :=
  fold_right (fun b s => String (ascii_of_nat b) s) EmptyString bytes.

Definition fullwidth_tilde : string := string_of_bytes [239; 189; 158].

Definition grinning_face : string := string_of_bytes [240; 159; 152; 128].

(** A database with the collections [users], [system.views], [orders]. *)
Definition listed_names : list string := ["users"; "system.views"; "orders"].

(** Parsers that read the two shapes used in the examples. *)
Definition parse_find_example (operationArgs : json)
  : result Explain.ParsedFindArgs :=
  match operationArgs with
  | JObj [("filter", JObj filter)] =>
      Ok {| Explain.filter := filter;
            Explain.projection := None;
            Explain.sort := None;
            Explain.limit := Some (of_Z 5000) |}
  | _ => Throw (Error "invalid arguments")
  end.

Definition parse_aggregate_example (operationArgs : json)
  : result (list record) :=
  match operationArgs with
  | JObj [("pipeline", JArr [JObj stage])] => Ok [stage]
  | _ => Throw (Error "invalid arguments")
  end.

(** [explain] of a find with the filter [{ status: "active" }]. *)
Definition explain_args_find : Explain.ExplainArgs :=
  {| Explain.collection := "orders";
     Explain.operation := Explain.find;
     Explain.operationArgs :=
       JObj [("filter", JObj [("status", JStr "active")])] |}.

(** The entries the loop of [extractFields] runs over. *)
Definition Object_entries (doc : value) : list (string * value) :=
  match doc with
  | VObject entries => entries
  | VBinary bytes => view_entries bytes
  | _ => []
  end.

(** [reaches doc prefix path w]: below the prefix, [path] leads from [doc]
    to the value [w], one key at a time, through plain objects and
    [ArrayBuffer] views only. *)
Inductive reaches : value -> string -> string -> value -> Prop :=
| reaches_entry : forall doc prefix key w,
    In (key, w) (Object_entries doc) ->
    reaches doc prefix (fieldPath_of prefix key) w
| reaches_nested : forall doc prefix key v path w,
    In (key, v) (Object_entries doc) ->
    (exists entries, v = VObject entries) \/ (exists bytes, v = VBinary bytes) ->
    reaches v (fieldPath_of prefix key) path w ->
    reaches doc prefix path w.

(** Every document of the sample has the path. *)
Definition present_in_all (documents : list value) (path : string) : Prop :=
  forall doc, In doc documents -> has_path doc path = true.

(** [Math.round((n / n) * 100)] is 100, decided for [1 <= n <= M]. *)
Definition full_percentages_checked (M : nat) : bool :=
  forallb (fun n => PrimFloat.eqb
                      (Math_round
                         ((number_of_Z n / number_of_Z n) * 100)%float)
                      (number_of_Z 100))
          (Zrange 1 M).

(** The state of the module as one invocation sees it: what asking for a
    client with a given URI comes to. *)
Definition client_for (connect : nat -> string -> result unit)
           (st : Singleton.module_state) (uri : string) : result unit :=
  match Singleton.client st with
  | Some _ => Ok tt
  | None =>
      match Singleton.clientPromise st with
      | Some settled => settled ;;; Ok tt
      | None => connect (List.length (Singleton.connections st)) uri
      end
  end.

(** A sample of 5000 documents asked of [orders]. *)
Definition schema_args_over_limit : SchemaTool.CollectionSchemaArgs :=
  {| SchemaTool.collection := "orders";
     SchemaTool.sampleSize := Some (of_Z 5000) |}.

(** The entries a [fieldStats] map gives the result object: one per path
    other than [__proto__]. *)
Definition own_entries (totalDocs : nat) (fieldStats : JsMap.t (JsMap.t nat))
  : list (string * FieldSchema) :=
  map (fun e => (fst e, field_schema totalDocs (snd e)))
      (filter (fun e => negb (String.eqb (fst e) "__proto__")) fieldStats).

(* ===================================================================== *)
(** * Part III.  Properties                                               *)
(* ===================================================================== *)

(** ** Strings and arrays of strings *)

Lemma prefix_split (key message : string) :
  String.prefix key message = true ->
  exists post, message = (key ++ post)%string.
Proof.
  revert message.
  induction key as [|c key IH]; intros message H.
  - exists message. reflexivity.
  - destruct message as [|d message]; simpl in H; [discriminate|].
    destruct (Ascii.ascii_dec c d) as [->|]; [|discriminate].
    destruct (IH _ H) as [post ->].
    exists post. reflexivity.
Qed.

Lemma String_includes_names (message key : string) :
  String_includes message key = true -> names message key.
Proof.
  induction message as [|c message IH].
  - cbn [String_includes]. rewrite orb_false_r. intros H.
    destruct (prefix_split _ _ H) as [post E].
    exists EmptyString, post. exact E.
  - cbn [String_includes]. intros H.
    apply orb_true_iff in H. destruct H as [H|H].
    + destruct (prefix_split _ _ H) as [post E].
      exists EmptyString, post. exact E.
    + destruct (IH H) as (pre & post & E).
      exists (String c pre), post. simpl. now rewrite E.
Qed.

Lemma includes_In (arr : list string) (x : string) :
  includes arr x = true <-> In x arr.
Proof.
  unfold includes. rewrite existsb_exists. split.
  - intros (y & Hy & E). apply String.eqb_eq in E. now subst.
  - intros H. exists x. split; [assumption | apply String.eqb_refl].
Qed.

Lemma includes_not_In (arr : list string) (x : string) :
  includes arr x = false <-> ~ In x arr.
Proof.
  rewrite <- includes_In. destruct (includes arr x); split; congruence.
Qed.

Lemma has_key_In (key : string) (o : record) :
  has_key key o = true <-> In key (Object_keys o).
Proof.
  unfold has_key, Object_keys. rewrite existsb_exists, in_map_iff. split.
  - intros (kv & Hin & E). apply String.eqb_eq in E. now exists kv.
  - intros (kv & E & Hin). exists kv. split; [assumption|].
    subst. apply String.eqb_refl.
Qed.

Lemma get_Some_has_key (key : string) (o : record) (v : json) :
  get key o = Some v -> has_key key o = true.
Proof.
  induction o as [|[k w] o IH]; simpl; [discriminate|].
  destruct (String.eqb key k); [reflexivity|]. exact IH.
Qed.

Lemma get_Some_In (key : string) (o : record) (v : json) :
  get key o = Some v -> In (key, v) o.
Proof.
  induction o as [|[k w] o IH]; simpl; [discriminate|].
  destruct (String.eqb key k) eqn:E.
  - apply String.eqb_eq in E. intros [= ->]. left. now subst.
  - intros H. right. auto.
Qed.

(** ** The denylist scanner *)

Section Scanner.
Variable prohibited : list string.

(** The two loops, one iteration unfolded. *)
Lemma scan_items_cons (item : json) (rest : list json) :
  containsProhibitedOperator (JArr (item :: rest)) prohibited =
  match containsProhibitedOperator item prohibited with
  | Some found =>
      if truthy_string found then Some found
      else containsProhibitedOperator (JArr rest) prohibited
  | None => containsProhibitedOperator (JArr rest) prohibited
  end.
Proof. reflexivity. Qed.

Lemma scan_entries_cons (key : string) (value : json) (rest : record) :
  containsProhibitedOperator (JObj ((key, value) :: rest)) prohibited =
  if includes prohibited key then Some key
  else
    match containsProhibitedOperator value prohibited with
    | Some found =>
        if truthy_string found then Some found
        else containsProhibitedOperator (JObj rest) prohibited
    | None => containsProhibitedOperator (JObj rest) prohibited
    end.
Proof. reflexivity. Qed.

(** Whatever the scanner reports is a denylisted key of the structure. *)
Lemma scan_sound (obj : json) (k : string) :
  containsProhibitedOperator obj prohibited = Some k ->
  In k prohibited /\ key_occurs k obj.
Proof.
  revert k. induction obj as [| | | |items IH|entries IH]
    using json_deep_ind; intros k; try discriminate.
  - induction items as [|item rest IHrest]; [discriminate|].
    rewrite scan_items_cons. intros H.
    assert (Hrest : containsProhibitedOperator (JArr rest) prohibited = Some k
                    -> In k prohibited /\ key_occurs k (JArr (item :: rest))).
    { intros H'. destruct IHrest as [Hin Hocc]; [|exact H'|].
      - intros v Hv. apply IH. now right.
      - split; [assumption|]. inversion Hocc; subst.
        eapply occurs_in_item; [right|]; eassumption. }
    destruct (containsProhibitedOperator item prohibited) as [found|] eqn:E;
      [destruct (truthy_string found)|]; auto.
    injection H as ->.
    destruct (IH item (or_introl eq_refl) k E) as [Hin Hocc].
    split; [assumption|]. eapply occurs_in_item; [left; reflexivity|assumption].
  - induction entries as [|[key value] rest IHrest]; [discriminate|].
    rewrite scan_entries_cons. intros H.
    assert (Hrest : containsProhibitedOperator (JObj rest) prohibited = Some k
                    -> In k prohibited
                       /\ key_occurs k (JObj ((key, value) :: rest))).
    { intros H'. destruct IHrest as [Hin Hocc]; [|exact H'|].
      - intros k' v Hv. apply (IH k'). now right.
      - split; [assumption|]. inversion Hocc; subst.
        + eapply occurs_key. right. eassumption.
        + eapply occurs_in_value; [right|]; eassumption. }
    destruct (includes prohibited key) eqn:Hinc.
    + injection H as ->. apply includes_In in Hinc.
      split; [assumption|]. eapply occurs_key. left. reflexivity.
    + destruct (containsProhibitedOperator value prohibited) as [found|] eqn:E;
        [destruct (truthy_string found)|]; auto.
      injection H as ->.
      destruct (IH key value (or_introl eq_refl) k E) as [Hin Hocc].
      split; [assumption|].
      eapply occurs_in_value; [left; reflexivity|assumption].
Qed.

(** Every string of the denylist is non-empty, hence truthy. *)
Hypothesis prohibited_truthy :
  forall k, In k prohibited -> truthy_string k = true.

Lemma scan_found_truthy (obj : json) (k : string) :
  containsProhibitedOperator obj prohibited = Some k ->
  truthy_string k = true.
Proof. intros H. apply prohibited_truthy. now apply scan_sound in H. Qed.

(** When the scanner reports nothing, no denylisted key occurs. *)
Lemma scan_complete (obj : json) :
  containsProhibitedOperator obj prohibited = None ->
  forall k, In k prohibited -> ~ key_occurs k obj.
Proof.
  induction obj as [| | | |items IH|entries IH] using json_deep_ind;
    intros Hnone k Hk Hocc; try (now inversion Hocc).
  - induction items as [|item rest IHrest];
      [inversion Hocc; subst; contradiction|].
    rewrite scan_items_cons in Hnone.
    destruct (containsProhibitedOperator item prohibited) as [found|] eqn:E.
    { rewrite (scan_found_truthy _ _ E) in Hnone. discriminate. }
    inversion Hocc as [| |items' v Hv Hkv]; subst.
    destruct Hv as [<-|Hv].
    + exact (IH item (or_introl eq_refl) E k Hk Hkv).
    + apply IHrest; [intros w Hw; apply IH; now right|exact Hnone|].
      eapply occurs_in_item; eassumption.
  - induction entries as [|[key value] rest IHrest];
      [inversion Hocc; subst; contradiction|].
    rewrite scan_entries_cons in Hnone.
    destruct (includes prohibited key) eqn:Hinc; [discriminate|].
    apply includes_not_In in Hinc.
    destruct (containsProhibitedOperator value prohibited) as [found|] eqn:E.
    { rewrite (scan_found_truthy _ _ E) in Hnone. discriminate. }
    assert (Hrest : ~ key_occurs k (JObj rest)).
    { intros Hr.
      apply IHrest; [intros k' w Hw; apply (IH k'); now right| |]; assumption. }
    inversion Hocc as [entries' v Hv|entries' k' v Hv Hkv|]; subst.
    + destruct Hv as [[= -> ->]|Hv]; [contradiction|].
      apply Hrest. eapply occurs_key. eassumption.
    + destruct Hv as [[= <- <-]|Hv].
      * exact (IH key value (or_introl eq_refl) E k Hk Hkv).
      * apply Hrest. eapply occurs_in_value; eassumption.
Qed.
End Scanner.

Arguments scan_sound [prohibited obj k] _.
Arguments scan_found_truthy [prohibited] _ [obj k] _.
Arguments scan_complete [prohibited] _ [obj] _ k _ _.

(** ** Filter validation *)

Lemma filter_denylist (k : string) :
  In k PROHIBITED_FILTER_OPERATORS <-> scripting_operator k.
Proof.
  unfold scripting_operator, PROHIBITED_FILTER_OPERATORS. simpl.
  intuition congruence.
Qed.

Lemma filter_denylist_truthy (k : string) :
  In k PROHIBITED_FILTER_OPERATORS -> truthy_string k = true.
Proof. simpl. intros [ <- | [ <- | [ <- | [] ] ] ]; reflexivity. Qed.

Lemma filter_message_quotes (k : string) : names (filter_message k) k.
Proof.
  exists ("Prohibited operator " ++ dq)%string.
  eexists. unfold filter_message. simpl. reflexivity.
Qed.

(** The tail of the message lists the whole denylist. *)
Lemma filter_message_lists (found k : string) :
  scripting_operator found -> scripting_operator k ->
  names (filter_message found) k.
Proof.
  intros [ -> | [ -> | -> ] ] [ -> | [ -> | -> ] ];
    apply String_includes_names; vm_compute; reflexivity.
Qed.

Lemma validateFilter_throws (filter : json) (found : string) :
  containsProhibitedOperator filter PROHIBITED_FILTER_OPERATORS = Some found ->
  validateFilter filter = Throw (Error (filter_message found)).
Proof.
  intros H. unfold validateFilter. rewrite H.
  now rewrite (scan_found_truthy filter_denylist_truthy H).
Qed.

(** C1.  A filter that holds one of the three scripting operator keys
    ([$where], [$function], [$accumulator]) as a mapping key at any depth,
    below logical combinators and inside array elements alike, is rejected:
    [validateFilter] throws an [Error] whose message quotes a scripting
    operator key [found] that the filter holds (the first one in traversal
    order, hence the key itself when it is the only one) and names the key
    in question.  A filter that holds none of the three keys at any depth is
    accepted. *)
Theorem validateFilter_scripting_operators (filter : json) :
  (forall k, scripting_operator k -> key_occurs k filter ->
     exists found,
       scripting_operator found /\ key_occurs found filter
       /\ validateFilter filter = Throw (Error (filter_message found))
       /\ names (filter_message found) found
       /\ names (filter_message found) k
       /\ ((forall k', scripting_operator k' -> key_occurs k' filter -> k' = k)
           -> found = k))
  /\ ((forall k, scripting_operator k -> ~ key_occurs k filter) ->
      validateFilter filter = Ok tt).
Proof.
  split.
  - intros k Hk Hocc.
    destruct (containsProhibitedOperator filter PROHIBITED_FILTER_OPERATORS)
      as [found|] eqn:E.
    + destruct (scan_sound E) as [Hin Hfound].
      apply filter_denylist in Hin.
      exists found. repeat split; auto.
      * now apply validateFilter_throws.
      * apply filter_message_quotes.
      * now apply filter_message_lists.
    + exfalso.
      apply (scan_complete filter_denylist_truthy E k); [|assumption].
      now apply filter_denylist.
  - intros Hnone. unfold validateFilter.
    destruct (containsProhibitedOperator filter PROHIBITED_FILTER_OPERATORS)
      as [found|] eqn:E; [|reflexivity].
    destruct (scan_sound E) as [Hin Hfound].
    apply filter_denylist in Hin. now destruct (Hnone found).
Qed.

Lemma validateFilter_scripting_operators_witness :
  (exists found,
     scripting_operator found
     /\ validateFilter filter_with_where = Throw (Error (filter_message found))
     /\ names (filter_message found) "$where")
  /\ validateFilter filter_without_operator = Ok tt.
Proof.
  split.
  - destruct (proj1 (validateFilter_scripting_operators filter_with_where)
                "$where") as (found & Hs & _ & Hthrow & _ & Hn & _);
      [| |exists found; auto].
    + left. reflexivity.
    + eapply occurs_in_value; [left; reflexivity|].
      eapply occurs_in_item; [right; left; reflexivity|].
      eapply occurs_in_value; [left; reflexivity|].
      eapply occurs_in_item; [left; reflexivity|].
      eapply occurs_key. left. reflexivity.
  - apply (proj2 (validateFilter_scripting_operators filter_without_operator)).
    intros k Hk. apply filter_denylist in Hk.
    exact (scan_complete filter_denylist_truthy
                         (obj := filter_without_operator) eq_refl k Hk).
Defined.

(** ** Pipeline validation *)

Lemma stage_denylist (k : string) :
  In k PROHIBITED_STAGES <-> write_stage k \/ code_execution_operator k.
Proof.
  unfold write_stage, code_execution_operator, PROHIBITED_STAGES. simpl.
  intuition congruence.
Qed.

Lemma code_denylist (k : string) :
  In k ["$function"; "$accumulator"] <-> code_execution_operator k.
Proof. unfold code_execution_operator. simpl. intuition congruence. Qed.

Lemma code_denylist_truthy (k : string) :
  In k ["$function"; "$accumulator"] -> truthy_string k = true.
Proof. simpl. intros [ <- | [ <- | [] ] ]; reflexivity. Qed.

Lemma ok_or_throws (r : result unit) : r = Ok tt \/ throws r.
Proof. destruct r as [[]|e]; [left|right; exists e]; reflexivity. Qed.

Lemma throws_not_ok (r : result unit) : throws r -> r <> Ok tt.
Proof. intros [e ->]. discriminate. Qed.

Lemma check_stage_keys_ok (stageKeys : list string) :
  check_stage_keys stageKeys = Ok tt <->
  (forall k, In k stageKeys -> ~ In k PROHIBITED_STAGES).
Proof.
  induction stageKeys as [|key rest IH]; cbn [check_stage_keys].
  - split; [intros _ k []|reflexivity].
  - destruct (includes PROHIBITED_STAGES key) eqn:E.
    + apply includes_In in E. split; [discriminate|].
      intros H. destruct (H key (or_introl eq_refl) E).
    + apply includes_not_In in E. rewrite IH. split.
      * intros H k [<-|Hk]; auto.
      * intros H k Hk. apply H. now right.
Qed.

Lemma index_is_not_pipeline (i : nat) :
  String.eqb "pipeline" (string_of_nat i) = false.
Proof.
  unfold string_of_nat. destruct (Nat.to_uint i); reflexivity.
Qed.

Lemma array_has_no_pipeline (items : list json) :
  js_in "pipeline" (JArr items) = Ok false.
Proof.
  unfold js_in. f_equal.
  replace (String.eqb "pipeline" "length") with false by reflexivity.
  cbn [orb].
  induction (seq 0 (List.length items)) as [|i l IH]; [reflexivity|].
  cbn [existsb]. rewrite index_is_not_pipeline. exact IH.
Qed.

Lemma get_None_has_key (key : string) (o : record) :
  get key o = None <-> has_key key o = false.
Proof.
  induction o as [|[k w] o IH]; simpl; [tauto|].
  destruct (String.eqb key k); simpl; [split; discriminate|exact IH].
Qed.

Lemma check_lookup_ok (stage : record) :
  check_lookup stage = Ok tt <-> lookup_allowed stage.
Proof.
  unfold check_lookup, lookup_allowed.
  destruct (get "$lookup" stage) as [lookup|] eqn:G.
  - rewrite (get_Some_has_key _ _ _ G).
    destruct lookup as [|b|n|s|items|o]; cbn [truthy].
    + split; auto.
    + destruct b; cbn [js_in bind]; split; auto; try discriminate.
      intros [H|[[? H]|(? & H & _)]]; discriminate.
    + destruct (truthy_number n); cbn [js_in bind]; split; auto;
        try discriminate.
      intros [H|[[? H]|(? & H & _)]]; discriminate.
    + destruct (truthy_string s); cbn [js_in bind]; split; auto;
        try discriminate.
      intros [H|[[? H]|(? & H & _)]]; discriminate.
    + rewrite array_has_no_pipeline. cbn [bind]. split; eauto.
    + cbn [js_in bind]. destruct (has_key "pipeline" o) eqn:E.
      * apply has_key_In in E. split; [discriminate|].
        intros [H|[[? H]|(o' & [= <-] & H)]]; try discriminate.
        contradiction.
      * split; [|reflexivity]. intros _. right. right. exists o.
        split; [reflexivity|]. rewrite <- has_key_In. congruence.
  - destruct (has_key "$lookup" stage); tauto.
Qed.

Lemma check_stage_content_ok (stage : record) :
  check_stage_content stage = Ok tt <->
  (forall k, code_execution_operator k -> ~ key_occurs k (JObj stage)).
Proof.
  unfold check_stage_content.
  destruct (containsProhibitedOperator (JObj stage) ["$function"; "$accumulator"])
    as [found|] eqn:E.
  - rewrite (scan_found_truthy code_denylist_truthy E).
    destruct (scan_sound E) as [Hin Hocc]. apply code_denylist in Hin.
    split; [discriminate|]. intros H. destruct (H found Hin Hocc).
  - split; [|reflexivity]. intros _ k Hk.
    apply (scan_complete code_denylist_truthy E). now apply code_denylist.
Qed.

Lemma validatePipeline_cons (stage : record) (rest : list record) :
  validatePipeline (stage :: rest) =
  (check_stage_keys (Object_keys stage) ;;;
   check_lookup stage ;;;
   check_stage_content stage ;;;
   validatePipeline rest).
Proof. reflexivity. Qed.

Lemma bind_ok (c k : result unit) :
  (c ;;; k) = Ok tt <-> c = Ok tt /\ k = Ok tt.
Proof.
  destruct c as [[]|e]; cbn [bind]; split; try tauto; try discriminate;
    intros [H _]; discriminate.
Qed.

(** The pipelines [validatePipeline] accepts. *)
Lemma validatePipeline_ok (pipeline : list record) :
  validatePipeline pipeline = Ok tt <-> Forall acceptable_stage pipeline.
Proof.
  induction pipeline as [|stage rest IH].
  - split; [constructor|reflexivity].
  - rewrite validatePipeline_cons, !bind_ok, IH, check_stage_keys_ok,
      check_lookup_ok, check_stage_content_ok.
    unfold acceptable_stage. split.
    + intros (Hk & Hl & Hc & Hr). constructor; [|assumption].
      repeat split; auto. intros k Hin. rewrite <- stage_denylist. auto.
    + intros H. inversion H as [|? ? (Hk & Hl & Hc) Hr]; subst.
      repeat split; auto. intros k Hin. rewrite stage_denylist. auto.
Qed.

Lemma validatePipeline_throws (pipeline : list record) :
  ~ Forall acceptable_stage pipeline -> throws (validatePipeline pipeline).
Proof.
  intros H. destruct (ok_or_throws (validatePipeline pipeline)) as [E|E];
    [|assumption].
  apply validatePipeline_ok in E. contradiction.
Qed.

Lemma unacceptable_stage_throws (pipeline : list record) (stage : record) :
  In stage pipeline -> ~ acceptable_stage stage ->
  throws (validatePipeline pipeline).
Proof.
  intros Hin Hbad. apply validatePipeline_throws. intros Hall.
  rewrite Forall_forall in Hall. auto.
Qed.

(** C2.  A pipeline with a stage that has [$out] or [$merge] among its own
    keys is rejected.  Acceptance is decided stage by stage by
    [acceptable_stage], which looks for the write stages among the top-level
    keys of a stage only: [$out] or [$merge] below a stage's argument value
    does not cause rejection.  [$function] or [$accumulator] at any depth of
    any stage does. *)
Theorem validatePipeline_write_stages_top_level_only (pipeline : list record) :
  ((exists stage k,
      In stage pipeline /\ write_stage k /\ In k (Object_keys stage)) ->
   throws (validatePipeline pipeline))
  /\ (validatePipeline pipeline = Ok tt <-> Forall acceptable_stage pipeline)
  /\ ((exists stage k,
         In stage pipeline /\ code_execution_operator k
         /\ key_occurs k (JObj stage)) ->
      throws (validatePipeline pipeline)).
Proof.
  split; [|split].
  - intros (stage & k & Hin & Hw & Hk).
    apply (unacceptable_stage_throws _ _ Hin).
    intros (Htop & _). apply (Htop k Hk). now left.
  - apply validatePipeline_ok.
  - intros (stage & k & Hin & Hc & Hocc).
    apply (unacceptable_stage_throws _ _ Hin).
    intros (_ & _ & Hdeep). exact (Hdeep k Hc Hocc).
Qed.

Lemma validatePipeline_write_stages_top_level_only_witness :
  throws (validatePipeline pipeline_with_out)
  /\ (key_occurs "$out" (JObj (hd [] pipeline_with_nested_out))
      /\ key_occurs "$merge" (JObj (hd [] pipeline_with_nested_out))
      /\ validatePipeline pipeline_with_nested_out = Ok tt)
  /\ throws (validatePipeline pipeline_with_nested_function).
Proof.
  split; [|split].
  - apply (proj1 (validatePipeline_write_stages_top_level_only
                    pipeline_with_out)).
    exists [("$out", JStr "copy")], "$out".
    split; [right; left; reflexivity|].
    split; [left; reflexivity|left; reflexivity].
  - split; [|split].
    + eapply occurs_in_value; [left; reflexivity|].
      eapply occurs_key. left. reflexivity.
    + eapply occurs_in_value; [left; reflexivity|].
      eapply occurs_in_value; [right; left; reflexivity|].
      eapply occurs_key. left. reflexivity.
    + apply (proj1 (proj2 (validatePipeline_write_stages_top_level_only
                             pipeline_with_nested_out))).
      constructor; [|constructor].
      split; [|split].
      * intros k [<-|[]] [[H|H]|[H|H]]; discriminate.
      * exact I.
      * intros k Hk. apply code_denylist in Hk.
        exact (scan_complete code_denylist_truthy
                 (obj := JObj (hd [] pipeline_with_nested_out)) eq_refl k Hk).
  - apply (proj2 (proj2 (validatePipeline_write_stages_top_level_only
                           pipeline_with_nested_function))).
    exists [("$addFields", JObj [("x", JObj [("$function", JObj [])])])],
           "$function".
    split; [left; reflexivity|].
    split; [left; reflexivity|].
    eapply occurs_in_value; [left; reflexivity|].
    eapply occurs_in_value; [left; reflexivity|].
    eapply occurs_key. left. reflexivity.
Defined.

(** C3.  A pipeline with a stage whose [$lookup] value is a mapping that has
    the key [pipeline] is rejected, whatever stands under that key.  When
    the stage is the first one and none of its own keys is a denylisted
    stage name, the error is the one of the [$lookup] rule, also when the
    sub-pipeline or the rest of the stage holds a denylisted operator. *)
Theorem validatePipeline_lookup_with_pipeline
  (pipeline : list record) (stage lookup : record) :
  In stage pipeline ->
  get "$lookup" stage = Some (JObj lookup) ->
  In "pipeline" (Object_keys lookup) ->
  throws (validatePipeline pipeline)
  /\ ((forall k, In k (Object_keys stage) -> ~ In k PROHIBITED_STAGES) ->
      forall rest,
        validatePipeline (stage :: rest) = Throw (Error lookup_message)).
Proof.
  intros Hin Hget Hkey. split.
  - apply (unacceptable_stage_throws _ _ Hin).
    intros (_ & Hl & _). unfold lookup_allowed in Hl. rewrite Hget in Hl.
    destruct Hl as [H|[[? H]|(o & [= <-] & H)]]; try discriminate.
    contradiction.
  - intros Htop rest. rewrite validatePipeline_cons.
    apply check_stage_keys_ok in Htop. rewrite Htop. cbn [bind].
    unfold check_lookup.
    rewrite (get_Some_has_key _ _ _ Hget), Hget. cbn [truthy js_in bind].
    apply has_key_In in Hkey. now rewrite Hkey.
Qed.

Lemma validatePipeline_lookup_with_pipeline_witness :
  throws (validatePipeline [[("$match", JObj [])]; lookup_stage_with_pipeline])
  /\ validatePipeline [lookup_stage_with_pipeline]
     = Throw (Error lookup_message).
Proof.
  split.
  - refine (proj1 (validatePipeline_lookup_with_pipeline
                     [[("$match", JObj [])]; lookup_stage_with_pipeline]
                     lookup_stage_with_pipeline
                     [("from", JStr "users"); ("pipeline", JArr [])]
                     _ eq_refl _)).
    + right. left. reflexivity.
    + right. left. reflexivity.
  - refine (proj2 (validatePipeline_lookup_with_pipeline
                     [lookup_stage_with_pipeline]
                     lookup_stage_with_pipeline
                     [("from", JStr "users"); ("pipeline", JArr [])]
                     _ eq_refl _) _ []).
    + left. reflexivity.
    + right. left. reflexivity.
    + intros k [<-|[]] [H|[H|[H|[H|[]]]]]; discriminate.
Defined.

(** C10.  [validatePipeline] does not return or report a policy violation
    on every stage shape: when [$lookup] maps to a truthy value that is not
    an object (a non-empty string, [true], a non-zero number), the
    membership test ["pipeline" in lookup] raises a [TypeError]. *)
Theorem validatePipeline_lookup_TypeError (v : json) (rest : list record) :
  truthy v = true ->
  (forall o, v <> JObj o) ->
  (forall items, v <> JArr items) ->
  validatePipeline ([("$lookup", v)] :: rest) = Throw TypeError.
Proof.
  intros Ht Hobj Harr. rewrite validatePipeline_cons.
  cbn [Object_keys map fst check_stage_keys includes existsb].
  replace (existsb (String.eqb "$lookup") PROHIBITED_STAGES) with false
    by reflexivity.
  cbn [bind]. unfold check_lookup.
  replace (has_key "$lookup" [("$lookup", v)]) with true by reflexivity.
  replace (get "$lookup" [("$lookup", v)]) with (Some v) by reflexivity.
  rewrite Ht.
  destruct v; try reflexivity.
  - destruct (Harr items eq_refl).
  - destruct (Hobj entries eq_refl).
Qed.

Lemma validatePipeline_lookup_TypeError_witness :
  validatePipeline [[("$lookup", JStr "x")]] = Throw TypeError.
Proof.
  apply (validatePipeline_lookup_TypeError (JStr "x") []).
  - reflexivity.
  - discriminate.
  - discriminate.
Defined.

(** ** Limit policy *)

Lemma num_le_Fin (a b : Q) : num_le (Fin a) (Fin b) = true <-> (a <= b)%Q.
Proof. apply Qle_bool_iff. Qed.

Lemma num_le_Fin_false (a b : Q) :
  num_le (Fin a) (Fin b) = false <-> (b < a)%Q.
Proof.
  split.
  - intros H. apply Qnot_le_lt. intros Hle.
    apply num_le_Fin in Hle. congruence.
  - intros H. destruct (num_le (Fin a) (Fin b)) eqn:E; [|reflexivity].
    apply num_le_Fin in E. destruct (Qlt_not_le _ _ H E).
Qed.

(** The policy both functions instantiate: [clamp r default max]. *)
Lemma clamp_cases (q default max : Q) :
  let clamp :=
    if num_le (Fin q) (of_Z 0) then Fin default
    else Math_min (Fin q) (Fin max) in
  ((q <= 0)%Q -> clamp = Fin default)
  /\ ((0 < q)%Q -> (q <= max)%Q -> clamp = Fin q)
  /\ ((0 < q)%Q -> (max < q)%Q -> clamp = Fin max).
Proof.
  intros clamp. subst clamp. unfold of_Z. cbn [Math_min].
  repeat split.
  - intros H. apply (num_le_Fin q (inject_Z 0)) in H. now rewrite H.
  - intros H0 H. apply (num_le_Fin_false q (inject_Z 0)) in H0.
    apply num_le_Fin in H. now rewrite H0, H.
  - intros H0 H. apply (num_le_Fin_false q (inject_Z 0)) in H0.
    apply num_le_Fin_false in H. now rewrite H0, H.
Qed.

(** C4.  [applyLimit(r)] is [r] for [1 <= r <= 100], [100] for [r > 100]
    and [10] for [r <= 0] or an absent [r]; [applySampleSize(r)] is [r] for
    [1 <= r <= 1000], [1000] for [r > 1000] and [100] for [r <= 0] or an
    absent [r].  The infinities fall under [r > max] and [r <= 0].  Both
    functions are total: they return a number on every input and have no
    way to throw. *)
Theorem applyLimit_applySampleSize_clamp (r : Q) :
  (((1 <= r)%Q -> (r <= 100)%Q -> applyLimit (Some (Fin r)) = Fin r)
   /\ ((100 < r)%Q -> applyLimit (Some (Fin r)) = of_Z 100)
   /\ ((r <= 0)%Q -> applyLimit (Some (Fin r)) = of_Z 10)
   /\ applyLimit (Some PosInfinity) = of_Z 100
   /\ applyLimit (Some NegInfinity) = of_Z 10
   /\ applyLimit None = of_Z 10)
  /\
  (((1 <= r)%Q -> (r <= 1000)%Q -> applySampleSize (Some (Fin r)) = Fin r)
   /\ ((1000 < r)%Q -> applySampleSize (Some (Fin r)) = of_Z 1000)
   /\ ((r <= 0)%Q -> applySampleSize (Some (Fin r)) = of_Z 100)
   /\ applySampleSize (Some PosInfinity) = of_Z 1000
   /\ applySampleSize (Some NegInfinity) = of_Z 100
   /\ applySampleSize None = of_Z 100).
Proof.
  split.
  - destruct (clamp_cases r (inject_Z 10) (inject_Z 100)) as (Hlo & Hmid & Hhi).
    repeat split; try reflexivity.
    + intros H1 H100. apply Hmid; [|exact H100].
      apply Qlt_le_trans with (y := 1%Q); [reflexivity|exact H1].
    + intros H. apply Hhi; [|exact H].
      apply Qlt_trans with (y := 100%Q); [reflexivity|exact H].
    + exact Hlo.
  - destruct (clamp_cases r (inject_Z 100) (inject_Z 1000))
      as (Hlo & Hmid & Hhi).
    repeat split; try reflexivity.
    + intros H1 H1000. apply Hmid; [|exact H1000].
      apply Qlt_le_trans with (y := 1%Q); [reflexivity|exact H1].
    + intros H. apply Hhi; [|exact H].
      apply Qlt_trans with (y := 1000%Q); [reflexivity|exact H].
    + exact Hlo.
Qed.

Lemma applyLimit_applySampleSize_clamp_witness :
  (applyLimit (Some (of_Z 50)) = of_Z 50
   /\ applyLimit (Some (of_Z 250)) = of_Z 100
   /\ applyLimit (Some (of_Z (-3))) = of_Z 10)
  /\ (applySampleSize (Some (of_Z 500)) = of_Z 500
      /\ applySampleSize (Some (of_Z 5000)) = of_Z 1000
      /\ applySampleSize (Some (of_Z 0)) = of_Z 100).
Proof.
  split; (split; [|split]).
  - apply (proj1 (applyLimit_applySampleSize_clamp (inject_Z 50)));
      unfold Qle; simpl; lia.
  - apply (proj1 (applyLimit_applySampleSize_clamp (inject_Z 250)));
      unfold Qlt; simpl; lia.
  - apply (proj1 (applyLimit_applySampleSize_clamp (inject_Z (-3))));
      unfold Qle; simpl; lia.
  - apply (proj2 (applyLimit_applySampleSize_clamp (inject_Z 500)));
      unfold Qle; simpl; lia.
  - apply (proj2 (applyLimit_applySampleSize_clamp (inject_Z 5000)));
      unfold Qlt; simpl; lia.
  - apply (proj2 (applyLimit_applySampleSize_clamp (inject_Z 0)));
      unfold Qle; simpl; lia.
Defined.

(** ** The aggregate tool *)

Lemma hasLimitStage_true (pipeline : list record) :
  hasLimitStage pipeline = true <->
  exists stage, In stage pipeline /\ In "$limit" (Object_keys stage).
Proof.
  unfold hasLimitStage. rewrite existsb_exists.
  split; intros (stage & Hin & H); exists stage; split; auto;
    now apply has_key_In.
Qed.

Lemma hasLimitStage_false (pipeline : list record) :
  hasLimitStage pipeline = false <->
  forall stage, In stage pipeline -> ~ In "$limit" (Object_keys stage).
Proof.
  split.
  - intros H stage Hin Hk.
    assert (hasLimitStage pipeline = true) by (apply hasLimitStage_true; eauto).
    congruence.
  - intros H. destruct (hasLimitStage pipeline) eqn:E; [|reflexivity].
    apply hasLimitStage_true in E. destruct E as (stage & Hin & Hk).
    destruct (H stage Hin Hk).
Qed.

Lemma getDatabase_name (connect : string -> result unit)
      (env : environment) (db : Db) :
  getDatabase connect env = Ok db -> getDatabaseName env = Ok db.
Proof.
  unfold getDatabase, getDatabaseName.
  destruct (unset (MONGODB_DB env)); [discriminate|].
  destruct (getMongoClient connect env); [|discriminate].
  intros H. exact H.
Qed.

Lemma appended_limit :
  [("$limit", JNum (applyLimit (Some (maxLimit SECURITY_LIMITS))))]
  = limit_stage.
Proof. reflexivity. Qed.

(** C5.  For a pipeline that passes validation, with the database
    configured and reachable, the tool issues exactly one call to the
    database client.  When no stage of the caller's pipeline has a [$limit]
    key, the pipeline of that call is the caller's pipeline followed by the
    one stage [{ $limit: 100 }]; when some stage has a [$limit] key, it is
    the caller's pipeline unchanged. *)
Theorem aggregateTool_bounding_stage
  (connect : string -> result unit)
  (toArray : aggregate_call -> result (list value))
  (EJSON_stringify : list value -> bool -> nat -> string)
  (env : environment) (args : AggregateArgs) (db : Db) :
  validatePipeline (pipeline args) = Ok tt ->
  getDatabase connect env = Ok db ->
  ((forall stage, In stage (pipeline args) ->
                  ~ In "$limit" (Object_keys stage)) ->
   fst (aggregateTool connect toArray EJSON_stringify env args)
   = [{| call_db := db;
         call_collection := collection args;
         call_pipeline := pipeline args ++ [limit_stage];
         call_maxTimeMS := 30000 |}])
  /\ ((exists stage, In stage (pipeline args)
                     /\ In "$limit" (Object_keys stage)) ->
      fst (aggregateTool connect toArray EJSON_stringify env args)
      = [{| call_db := db;
            call_collection := collection args;
            call_pipeline := pipeline args;
            call_maxTimeMS := 30000 |}]).
Proof.
  intros Hvalid Hdb.
  pose proof (getDatabase_name _ _ _ Hdb) as Hname.
  unfold aggregateTool. rewrite Hvalid, Hdb, Hname, appended_limit.
  cbn [lift io_bind app]. unfold run_aggregate.
  split; intros H.
  - apply hasLimitStage_false in H. rewrite H. cbn [negb io_bind].
    destruct (toArray _); reflexivity.
  - apply hasLimitStage_true in H. rewrite H. cbn [negb io_bind].
    destruct (toArray _); reflexivity.
Qed.

Lemma aggregateTool_bounding_stage_witness :
  fst (aggregateTool (fun _ => Ok tt) (fun _ => Ok []) (fun _ _ _ => "")
                     env_configured args_without_limit)
  = [{| call_db := "shop";
        call_collection := "orders";
        call_pipeline := [[("$match", JObj [])]; limit_stage];
        call_maxTimeMS := 30000 |}]
  /\ fst (aggregateTool (fun _ => Ok tt) (fun _ => Ok []) (fun _ _ _ => "")
                        env_configured args_with_limit)
     = [{| call_db := "shop";
           call_collection := "orders";
           call_pipeline := [[("$match", JObj [])];
                             [("$limit", JNum (of_Z 5))]];
           call_maxTimeMS := 30000 |}].
Proof.
  split.
  - refine (proj1 (aggregateTool_bounding_stage
                     (fun _ => Ok tt) (fun _ => Ok []) (fun _ _ _ => "")
                     env_configured args_without_limit "shop"
                     eq_refl eq_refl) _).
    intros stage [<-|[]] [H|[]]. discriminate.
  - refine (proj2 (aggregateTool_bounding_stage
                     (fun _ => Ok tt) (fun _ => Ok []) (fun _ _ _ => "")
                     env_configured args_with_limit "shop"
                     eq_refl eq_refl) _).
    exists [("$limit", JNum (of_Z 5))].
    split; [right; left; reflexivity|left; reflexivity].
Defined.

(** ** Facts about [Map] *)

Section JsMapFacts.
Context {V : Type}.
Implicit Types (m : JsMap.t V) (k : string) (v : V).

Lemma get_set m k v k' :
  JsMap.get (JsMap.set m k v) k'
  = if String.eqb k' k then Some v else JsMap.get m k'.
Proof.
  induction m as [|[a w] m IH]; cbn [JsMap.set JsMap.get].
  - reflexivity.
  - destruct (String.eqb k a) eqn:E; cbn [JsMap.get].
    + apply String.eqb_eq in E. subst a.
      destruct (String.eqb k' k); reflexivity.
    + destruct (String.eqb k' a) eqn:E'; [|exact IH].
      apply String.eqb_eq in E'. subst a.
      now rewrite String.eqb_sym, E.
Qed.

Lemma has_set m k v k' :
  JsMap.has (JsMap.set m k v) k' = (String.eqb k' k || JsMap.has m k')%bool.
Proof.
  unfold JsMap.has. rewrite get_set.
  destruct (String.eqb k' k); reflexivity.
Qed.

Lemma has_keys m k : JsMap.has m k = true <-> In k (JsMap.keys m).
Proof.
  unfold JsMap.has.
  induction m as [|[a w] m IH]; cbn [JsMap.get JsMap.keys map fst].
  - split; [discriminate|intros []].
  - destruct (String.eqb k a) eqn:E.
    + apply String.eqb_eq in E. split; [left; now subst|reflexivity].
    + apply String.eqb_neq in E. rewrite IH. unfold JsMap.keys.
      split; [now right|]. intros [H|H]; [congruence|assumption].
Qed.

Lemma keys_set m k v :
  JsMap.keys (JsMap.set m k v)
  = if JsMap.has m k then JsMap.keys m else JsMap.keys m ++ [k].
Proof.
  unfold JsMap.has.
  induction m as [|[a w] m IH]; cbn [JsMap.set JsMap.get JsMap.keys map fst].
  - reflexivity.
  - destruct (String.eqb k a) eqn:E; [reflexivity|].
    cbn [map fst]. unfold JsMap.keys in IH. rewrite IH.
    destruct (JsMap.get m k); reflexivity.
Qed.

Lemma set_NoDup m k v :
  NoDup (JsMap.keys m) -> NoDup (JsMap.keys (JsMap.set m k v)).
Proof.
  intros H. rewrite keys_set. destruct (JsMap.has m k) eqn:E; [assumption|].
  apply NoDup_app; [assumption|repeat constructor; intros []|].
  intros x Hx. intros [<-|[]]. apply has_keys in Hx. congruence.
Qed.

Lemma get_In m k v : JsMap.get m k = Some v -> In (k, v) m.
Proof.
  induction m as [|[a w] m IH]; cbn [JsMap.get]; [discriminate|].
  destruct (String.eqb k a) eqn:E.
  - apply String.eqb_eq in E. intros [= ->]. left. now subst.
  - intros H. right. auto.
Qed.

Lemma In_get m k v :
  NoDup (JsMap.keys m) -> In (k, v) m -> JsMap.get m k = Some v.
Proof.
  induction m as [|[a w] m IH]; cbn [JsMap.get JsMap.keys map fst];
    [intros _ []|].
  intros Hnd [[= -> ->]|Hin].
  - now rewrite String.eqb_refl.
  - inversion Hnd as [|? ? Hnot Hnd']; subst.
    destruct (String.eqb k a) eqn:E; [|auto].
    apply String.eqb_eq in E. subst a. exfalso. apply Hnot.
    change k with (fst (k, v)). now apply in_map.
Qed.
End JsMapFacts.

(** ** Schema inference: the tally *)

Lemma fold_add_from (l : list nat) (a : nat) :
  fold_left Nat.add l a = a + fold_left Nat.add l 0.
Proof.
  revert a. induction l as [|x l IH]; intros a; cbn [fold_left]; [lia|].
  rewrite (IH (a + x)), (IH (0 + x)). lia.
Qed.

Lemma sum_cons (x : nat) (l : list nat) : sum (x :: l) = x + sum l.
Proof. unfold sum. cbn [fold_left]. now rewrite fold_add_from. Qed.

Lemma sum_bump (typeCounts : JsMap.t nat) (type : string) :
  sum (JsMap.values (bump typeCounts type))
  = sum (JsMap.values typeCounts) + 1.
Proof.
  unfold bump, get_or_0, JsMap.values.
  induction typeCounts as [|[a n] r IH]; cbn [JsMap.get JsMap.set map snd].
  - reflexivity.
  - destruct (String.eqb type a); cbn [map snd]; rewrite !sum_cons; [lia|].
    rewrite IH. lia.
Qed.

Lemma keys_bump (typeCounts : JsMap.t nat) (type k : string) :
  In k (JsMap.keys (bump typeCounts type))
  <-> In k (JsMap.keys typeCounts) \/ k = type.
Proof.
  unfold bump. rewrite keys_set.
  destruct (JsMap.has typeCounts type) eqn:E.
  - apply has_keys in E. split; [now left|]. intros [H| ->]; assumption.
  - rewrite in_app_iff. simpl. intuition.
Qed.

Lemma tally_eq (fieldStats : JsMap.t (JsMap.t nat)) (e : string * string) :
  tally fieldStats e
  = JsMap.set
      (if JsMap.has fieldStats (fst e) then fieldStats
       else JsMap.set fieldStats (fst e) JsMap.empty)
      (fst e) (bump (counts fieldStats (fst e)) (snd e)).
Proof.
  unfold tally, counts, JsMap.has.
  destruct (JsMap.get fieldStats (fst e)) as [tc|] eqn:G; cbn [negb].
  - now rewrite G.
  - now rewrite get_set, String.eqb_refl.
Qed.

Lemma counts_tally (fieldStats : JsMap.t (JsMap.t nat))
      (e : string * string) (path : string) :
  counts (tally fieldStats e) path
  = if String.eqb path (fst e) then bump (counts fieldStats (fst e)) (snd e)
    else counts fieldStats path.
Proof.
  rewrite tally_eq. unfold counts at 1. rewrite get_set.
  destruct (String.eqb path (fst e)) eqn:E; [reflexivity|].
  destruct (JsMap.has fieldStats (fst e)); [reflexivity|].
  now rewrite get_set, E.
Qed.

Lemma has_tally (fieldStats : JsMap.t (JsMap.t nat))
      (e : string * string) (path : string) :
  JsMap.has (tally fieldStats e) path
  = (String.eqb path (fst e) || JsMap.has fieldStats path)%bool.
Proof.
  rewrite tally_eq, has_set.
  destruct (String.eqb path (fst e)) eqn:E; [reflexivity|].
  destruct (JsMap.has fieldStats (fst e)); [reflexivity|].
  now rewrite has_set, E.
Qed.

Lemma tally_NoDup (fieldStats : JsMap.t (JsMap.t nat)) (e : string * string) :
  NoDup (JsMap.keys fieldStats) -> NoDup (JsMap.keys (tally fieldStats e)).
Proof.
  intros H. rewrite tally_eq. apply set_NoDup.
  destruct (JsMap.has fieldStats (fst e)); [assumption|now apply set_NoDup].
Qed.

(** The state of [fieldStats] after a sequence of [(path, type)] pairs. *)
Section TallyFold.
Variable path : string.

Lemma fold_tally_total (events : list (string * string)) :
  forall fieldStats,
    sum (JsMap.values (counts (fold_left tally events fieldStats) path))
    = sum (JsMap.values (counts fieldStats path))
      + count_occ string_dec (map fst events) path.
Proof.
  induction events as [|e events IH]; intros fieldStats;
    cbn [fold_left map count_occ]; [lia|].
  rewrite IH, counts_tally.
  destruct (string_dec (fst e) path) as [ -> |Hne].
  - rewrite String.eqb_refl, sum_bump. lia.
  - apply not_eq_sym, String.eqb_neq in Hne. now rewrite Hne.
Qed.

Lemma fold_tally_kinds (events : list (string * string)) (k : string) :
  forall fieldStats,
    In k (JsMap.keys (counts (fold_left tally events fieldStats) path))
    <-> In k (JsMap.keys (counts fieldStats path)) \/ In (path, k) events.
Proof.
  induction events as [|e events IH]; intros fieldStats;
    cbn [fold_left In]; [tauto|].
  rewrite IH, counts_tally.
  destruct (String.eqb path (fst e)) eqn:E.
  - apply String.eqb_eq in E. rewrite keys_bump, <- E.
    destruct e as [p t]. cbn [fst snd] in *. subst p.
    intuition congruence.
  - apply String.eqb_neq in E. destruct e as [p t]. cbn [fst] in E.
    intuition congruence.
Qed.

Lemma fold_tally_kinds_NoDup (events : list (string * string)) :
  forall fieldStats,
    NoDup (JsMap.keys (counts fieldStats path)) ->
    NoDup (JsMap.keys (counts (fold_left tally events fieldStats) path)).
Proof.
  induction events as [|e events IH]; intros fieldStats H;
    cbn [fold_left]; [assumption|].
  apply IH. rewrite counts_tally.
  destruct (String.eqb path (fst e)) eqn:E; [|assumption].
  apply String.eqb_eq in E. subst path. now apply set_NoDup.
Qed.

Lemma fold_tally_has (events : list (string * string)) :
  forall fieldStats,
    JsMap.has (fold_left tally events fieldStats) path = true
    <-> JsMap.has fieldStats path = true \/ In path (map fst events).
Proof.
  induction events as [|e events IH]; intros fieldStats;
    cbn [fold_left map In]; [tauto|].
  rewrite IH, has_tally, orb_true_iff, String.eqb_eq.
  intuition congruence.
Qed.
End TallyFold.

Lemma fold_tally_NoDup (events : list (string * string)) :
  forall fieldStats,
    NoDup (JsMap.keys fieldStats) ->
    NoDup (JsMap.keys (fold_left tally events fieldStats)).
Proof.
  induction events as [|e events IH]; intros fieldStats H;
    cbn [fold_left]; [assumption|].
  apply IH. now apply tally_NoDup.
Qed.

(** The two nested loops visit the pairs of all documents in sequence. *)
Lemma collect_flat (documents : list value) :
  collect documents
  = fold_left tally (flat_map (fun doc => extractFields doc "") documents)
              JsMap.empty.
Proof.
  unfold collect. generalize (@JsMap.empty (JsMap.t nat)).
  induction documents as [|doc documents IH]; intros fieldStats;
    cbn [fold_left flat_map]; [reflexivity|].
  now rewrite IH, fold_left_app.
Qed.

(** ** Schema inference: the fields of one document *)

Lemma fold_left_invariant {A B : Type} (P : A -> Prop) (f : A -> B -> A)
      (l : list B) :
  (forall a b, P a -> P (f a b)) -> forall a, P a -> P (fold_left f l a).
Proof.
  intros Hf. induction l as [|b l IH]; intros a Ha; cbn [fold_left]; auto.
Qed.

Lemma set_all_NoDup (fields nestedFields : JsMap.t string) :
  NoDup (JsMap.keys fields) ->
  NoDup (JsMap.keys (set_all fields nestedFields)).
Proof.
  intros H. unfold set_all.
  apply (fold_left_invariant (fun m => NoDup (JsMap.keys m))); [|exact H].
  intros a b Ha. now apply set_NoDup.
Qed.

Lemma extract_entry_NoDup (prefix : string) (fields : JsMap.t string)
      (key : string) (v : value) (nestedFields : JsMap.t string) :
  NoDup (JsMap.keys fields) ->
  NoDup (JsMap.keys (extract_entry prefix fields key v nestedFields)).
Proof.
  intros H. unfold extract_entry.
  destruct (is_nested_object v);
    [apply set_all_NoDup|]; now apply set_NoDup.
Qed.

(** A [Map] holds each path once. *)
Lemma extractFields_NoDup (doc : value) (prefix : string) :
  NoDup (JsMap.keys (extractFields doc prefix)).
Proof.
  destruct doc; cbn [extractFields]; try constructor.
  - apply (fold_left_invariant (fun m => NoDup (JsMap.keys m)));
      [|constructor].
    intros a [key v] Ha. now apply extract_entry_NoDup.
  - apply (fold_left_invariant (fun m => NoDup (JsMap.keys m)));
      [|constructor].
    intros a [key v] Ha. now apply extract_entry_NoDup.
Qed.

Lemma kind_in_In (doc : value) (path kind : string) :
  kind_in doc path kind <-> In (path, kind) (extractFields doc "").
Proof.
  unfold kind_in. split; [apply get_In|].
  apply In_get, extractFields_NoDup.
Qed.

Lemma has_path_count (doc : value) (path : string) :
  count_occ string_dec (JsMap.keys (extractFields doc "")) path
  = if has_path doc path then 1 else 0.
Proof.
  unfold has_path.
  destruct (JsMap.has (extractFields doc "") path) eqn:E.
  - apply has_keys in E.
    now apply NoDup_count_occ'; [apply extractFields_NoDup|].
  - apply count_occ_not_In. rewrite <- has_keys. congruence.
Qed.

Lemma presence_cons (doc : value) (documents : list value) (path : string) :
  presence (doc :: documents) path
  = (if has_path doc path then 1 else 0) + presence documents path.
Proof.
  unfold presence. cbn [filter]. now destruct (has_path doc path).
Qed.

Lemma presence_le (documents : list value) (path : string) :
  presence documents path <= List.length documents.
Proof. apply filter_length_le. Qed.

Lemma presence_pos (documents : list value) (path : string) :
  1 <= presence documents path
  <-> exists doc, In doc documents /\ has_path doc path = true.
Proof.
  induction documents as [|doc documents IH].
  - cbn. split; [lia|intros (? & [] & _)].
  - rewrite presence_cons. destruct (has_path doc path) eqn:E.
    + split; [|lia]. intros _. exists doc. split; [now left|assumption].
    + cbn [Nat.add]. rewrite IH. split.
      * intros (d & Hd & H). exists d. split; [now right|assumption].
      * intros (d & [<-|Hd] & H); [congruence|eauto].
Qed.

Lemma count_flat_presence (documents : list value) (path : string) :
  count_occ string_dec
            (map fst (flat_map (fun doc => extractFields doc "") documents))
            path
  = presence documents path.
Proof.
  induction documents as [|doc documents IH]; [reflexivity|].
  cbn [flat_map]. rewrite map_app, count_occ_app, IH, presence_cons.
  f_equal. apply has_path_count.
Qed.

(** ** Schema inference: [fieldStats] after the sample *)

Lemma collect_total (documents : list value) (path : string) :
  sum (JsMap.values (counts (collect documents) path))
  = presence documents path.
Proof.
  rewrite collect_flat, fold_tally_total, count_flat_presence. reflexivity.
Qed.

Lemma collect_kinds (documents : list value) (path kind : string) :
  In kind (JsMap.keys (counts (collect documents) path))
  <-> exists doc, In doc documents /\ kind_in doc path kind.
Proof.
  rewrite collect_flat, fold_tally_kinds, in_flat_map.
  cbn [counts JsMap.get JsMap.empty JsMap.keys map In].
  split.
  - intros [[]|(doc & Hd & H)]. exists doc. now rewrite kind_in_In.
  - intros (doc & Hd & H). right. exists doc. now rewrite <- kind_in_In.
Qed.

Lemma collect_kinds_NoDup (documents : list value) (path : string) :
  NoDup (JsMap.keys (counts (collect documents) path)).
Proof. rewrite collect_flat. apply fold_tally_kinds_NoDup. constructor. Qed.

Lemma collect_has (documents : list value) (path : string) :
  JsMap.has (collect documents) path = true <-> 1 <= presence documents path.
Proof.
  rewrite collect_flat, fold_tally_has, <- count_flat_presence.
  cbn [JsMap.has JsMap.get JsMap.empty].
  rewrite (count_occ_In string_dec). split; [intros [H|H]|]; auto.
  discriminate.
Qed.

Lemma collect_NoDup (documents : list value) :
  NoDup (JsMap.keys (collect documents)).
Proof. rewrite collect_flat. apply fold_tally_NoDup. constructor. Qed.

(** ** Schema inference: percentages and kind lists *)

Lemma In_Zrange (len : nat) :
  forall lo z, In z (Zrange lo len) <-> (lo <= z < lo + Z.of_nat len)%Z.
Proof.
  induction len as [|len IH]; intros lo z; cbn [Zrange In].
  - lia.
  - rewrite IH. lia.
Qed.

(** Comparison of two positive finite binary64 numbers in canonical form. *)
Lemma SFleb_positive (m1 m2 : positive) (e1 e2 : Z) :
  SFleb (S754_finite false m1 e1) (S754_finite false m2 e2) = true
  <-> (e1 < e2)%Z \/ (e1 = e2 /\ (Z.pos m1 <= Z.pos m2)%Z).
Proof.
  unfold SFleb, SFcompare.
  change (PosDef.Pos.compare_cont Eq m1 m2) with (Pos.compare m1 m2).
  rewrite Pos2Z.inj_compare.
  destruct (Z.compare_spec e1 e2) as [He|He|He].
  - destruct (Z.compare_spec (Z.pos m1) (Z.pos m2)) as [Hm|Hm|Hm];
      split; intros H; try discriminate; try reflexivity.
    + right. split; [assumption|]. rewrite Hm. apply Z.le_refl.
    + right. split; [assumption|]. apply Z.lt_le_incl. assumption.
    + exfalso. destruct H as [H|[_ H]].
      * subst. apply (Z.lt_irrefl _ H).
      * apply (Z.lt_irrefl (Z.pos m1)). eapply Z.le_lt_trans; eassumption.
  - split; [left; assumption|reflexivity].
  - split; [discriminate|].
    intros [H|[H _]].
    + exfalso. apply (Z.lt_irrefl e1). eapply Z.lt_trans; eassumption.
    + subst. exfalso. apply (Z.lt_irrefl _ He).
Qed.

Lemma digits2_pos_bounds (m : positive) :
  (2 ^ (Z.pos (digits2_pos m) - 1) <= Z.pos m < 2 ^ Z.pos (digits2_pos m))%Z.
Proof.
  induction m as [m IH|m IH|]; cbn [digits2_pos].
  - rewrite Pos2Z.inj_succ, Z.pow_succ_r by lia.
    replace (Z.succ (Z.pos (digits2_pos m)) - 1)%Z
      with (Z.succ (Z.pos (digits2_pos m) - 1)) by lia.
    rewrite Z.pow_succ_r by lia. lia.
  - rewrite Pos2Z.inj_succ, Z.pow_succ_r by lia.
    replace (Z.succ (Z.pos (digits2_pos m)) - 1)%Z
      with (Z.succ (Z.pos (digits2_pos m) - 1)) by lia.
    rewrite Z.pow_succ_r by lia. lia.
  - cbn. lia.
Qed.

(** The mantissa of a canonical binary64 number has at most 53 bits, and
    exactly 53 above the smallest exponent. *)
Lemma canonical_mantissa_bounds (s : bool) (m : positive) (e : Z) :
  valid_binary (S754_finite s m e) = true ->
  (Z.pos m < 2 ^ 53)%Z /\ ((-1074 < e)%Z -> (2 ^ 52 <= Z.pos m)%Z).
Proof.
  cbn [SpecFloat.valid_binary]. unfold bounded, canonical_mantissa, fexp.
  intros H. apply andb_true_iff in H. destruct H as [H _].
  apply Z.eqb_eq in H.
  change (SpecFloat.emin prec emax) with (-1074)%Z in H.
  change prec with 53%Z in H.
  pose proof (digits2_pos_bounds m) as [Hlo Hhi].
  set (d := Z.pos (digits2_pos m)) in *.
  assert (Hd : (0 < d)%Z) by (subst d; lia).
  split.
  - assert (d <= 53)%Z by lia.
    apply Z.lt_le_trans with (1 := Hhi). apply Z.pow_le_mono_r; lia.
  - intros He. assert (d = 53)%Z by lia.
    replace 52%Z with (d - 1)%Z by lia. exact Hlo.
Qed.

Lemma small_numbers_equal_themselves :
  forallb (fun p => PrimFloat.eqb (number_of_Z p) (number_of_Z p))
          (Zrange 0 101) = true.
Proof. vm_compute. reflexivity. Qed.

Lemma is_number_small (p : Z) : (0 <= p <= 100)%Z -> is_number (number_of_Z p) p.
Proof.
  intros Hp. pose proof small_numbers_equal_themselves as H.
  rewrite forallb_forall in H. apply H. apply In_Zrange. lia.
Qed.

Lemma round_small (m : positive) (k : Z) :
  (0 < k)%Z ->
  let r := Z.shiftr (Z.pos m + 2 ^ (k - 1)) k in
  (0 <= r)%Z
  /\ ((Z.pos m < 101 * 2 ^ k - 2 ^ (k - 1))%Z -> (r <= 100)%Z)
  /\ ((1 <= r)%Z <-> (2 ^ (k - 1) <= Z.pos m)%Z).
Proof.
  intros Hk r. subst r. rewrite Z.shiftr_div_pow2 by lia.
  assert (Hpow : (2 ^ k = 2 * 2 ^ (k - 1))%Z).
  { replace k with (Z.succ (k - 1)) at 1 by lia.
    rewrite Z.pow_succ_r by lia. reflexivity. }
  assert (Hpos : (0 < 2 ^ (k - 1))%Z) by (apply Z.pow_pos_nonneg; lia).
  split; [apply Z.div_pos; lia|]. split.
  - intros H. apply Z.lt_succ_r, Z.div_lt_upper_bound; lia.
  - split.
    + intros H. destruct (Z.le_gt_cases (2 ^ (k - 1)) (Z.pos m)) as [|Hlt];
        [assumption|].
      rewrite Z.div_small in H by lia. lia.
    + intros H. apply Z.div_le_lower_bound; lia.
Qed.

(** [Math.round] on a binary64 number between 0 and 100. *)
Lemma Math_round_percent (y : float) :
  (0 <=? y)%float = true ->
  (y <=? 100)%float = true ->
  exists p,
    (0 <= p <= 100)%Z
    /\ is_number (Math_round y) p
    /\ ((1 <= p)%Z <-> (0.5 <=? y)%float = true).
Proof.
  intros H0 H100. rewrite leb_spec in H0, H100. rewrite leb_spec.
  pose proof (Prim2SF_valid y) as Hv.
  unfold Math_round, is_number.
  change (Prim2SF 0%float) with (S754_zero false) in H0.
  change (Prim2SF 100%float)
    with (S754_finite false 7036874417766400 (-46)) in H100.
  change (Prim2SF 0.5%float) with (S754_finite false 4503599627370496 (-53)).
  destruct (Prim2SF y) as [s|s| |s m e] eqn:E.
  - exists 0%Z. split; [lia|]. split.
    + rewrite FloatAxioms.eqb_spec, E. now destruct s.
    + cbn. split; [lia|discriminate].
  - destruct s; discriminate.
  - discriminate.
  - destruct s; [discriminate|].
    apply SFleb_positive in H100.
    destruct (canonical_mantissa_bounds _ _ _ Hv) as [Hhi Hlo].
    assert (He : (e <= -46)%Z) by lia.
    replace (0 <=? e)%Z with false by (symmetry; apply Z.leb_gt; lia).
    destruct (round_small m (- e) ltac:(lia)) as (Hr0 & Hr100 & Hr1).
    set (r := Z.shiftr (Z.pos m + 2 ^ (- e - 1)) (- e)) in *.
    assert (Hle : (r <= 100)%Z).
    { apply Hr100.
      assert (Hpow : (2 ^ (- e) = 2 * 2 ^ (- e - 1))%Z).
      { replace (- e)%Z with (Z.succ (- e - 1)) at 1 by lia.
        rewrite Z.pow_succ_r by lia. reflexivity. }
      destruct H100 as [Hlt|[-> Hm]].
      - assert (2 ^ 47 <= 2 ^ (- e))%Z by (apply Z.pow_le_mono_r; lia).
        change (2 ^ 53)%Z with (64 * 2 ^ 47)%Z in Hhi. lia.
      - change (- -46)%Z with 46%Z. change (46 - 1)%Z with 45%Z.
        change (2 ^ 46)%Z with 70368744177664%Z.
        change (2 ^ 45)%Z with 35184372088832%Z. lia. }
    exists r. split; [lia|]. split.
    + destruct (Z.eqb_spec r 0) as [->|Hne]; [reflexivity|].
      replace (r <? 0)%Z with false by (symmetry; apply Z.ltb_ge; lia).
      apply is_number_small. lia.
    + rewrite Hr1, SFleb_positive. split.
      * intros H.
        destruct (Z.lt_trichotomy (-53) e) as [Hlt|[Heq|Hgt]].
        -- now left.
        -- right. split; [assumption|]. subst e.
           change (- -53 - 1)%Z with 52%Z in H.
           change (Z.pos 4503599627370496) with (2 ^ 52)%Z. exact H.
        -- exfalso.
           assert (2 ^ 53 <= 2 ^ (- e - 1))%Z by (apply Z.pow_le_mono_r; lia).
           lia.
      * intros [Hlt|[<- Hm]].
        -- apply Z.le_trans with (m := (2 ^ 52)%Z).
           ++ apply Z.pow_le_mono_r; lia.
           ++ apply Hlo. lia.
        -- change (- -53 - 1)%Z with 52%Z.
           change (Z.pos 4503599627370496) with (2 ^ 52)%Z in Hm. exact Hm.
Qed.

(** What the evaluation of [percentages_checked] establishes. *)
Lemma percentages_checked_sound (M : nat) :
  percentages_checked M = true ->
  forall n N : nat,
    1 <= n -> n <= N -> N <= M ->
    exists p,
      (0 <= p <= 100)%Z
      /\ is_number (percentage_of n N) p
      /\ ((1 <= p)%Z <-> N <= 200 * n).
Proof.
  intros H n N Hn HnN HN. unfold percentages_checked in H.
  rewrite forallb_forall in H.
  specialize (H (Z.of_nat N)). rewrite In_Zrange in H.
  specialize (H ltac:(lia)). rewrite forallb_forall in H.
  specialize (H (Z.of_nat n)). rewrite In_Zrange in H.
  specialize (H ltac:(lia)). unfold percentage_checked in H.
  cbv zeta in H. rewrite !andb_true_iff in H. destruct H as [[H0 H100] Hhalf].
  apply Bool.eqb_prop in Hhalf.
  destruct (Math_round_percent _ H0 H100) as (p & Hp & Hnum & Hpos).
  exists p. split; [exact Hp|]. split; [exact Hnum|].
  rewrite Hpos, Hhalf, Z.leb_le. lia.
Qed.

(** The binary64 quotient, evaluated for every sample size up to
    [maxSampleSize] and every number of occurrences. *)
Lemma percentages_checked_all : percentages_checked 1000 = true.
Proof. vm_compute. reflexivity. Qed.

Lemma percentage_of_percent (n N : nat) :
  1 <= n -> n <= N -> N <= 1000 ->
  exists p,
    (0 <= p <= 100)%Z
    /\ is_number (percentage_of n N) p
    /\ ((1 <= p)%Z <-> N <= 200 * n).
Proof. exact (percentages_checked_sound 1000 percentages_checked_all n N). Qed.

Lemma insert_sorted_In (x k : string) (l : list string) :
  In k (insert_sorted x l) <-> k = x \/ In k l.
Proof.
  induction l as [|y l IH]; cbn [insert_sorted].
  - simpl. intuition.
  - destruct (String.leb x y); cbn [In]; [intuition|].
    rewrite IH. intuition.
Qed.

(** Sorting keeps the elements. *)
Lemma Array_sort_In (k : string) (l : list string) :
  In k (Array_sort l) <-> In k l.
Proof.
  unfold Array_sort. induction l as [|x l IH]; cbn [fold_right In]; [tauto|].
  rewrite insert_sorted_In, IH. intuition.
Qed.

Lemma insert_index_Permutation {V : Type} (n : N) (key : string) (v : V)
      (o : JsObject.t V) :
  Permutation (JsObject.insert_index n key v o) ((key, v) :: o).
Proof.
  induction o as [|[k w] o IH]; cbn [JsObject.insert_index]; [reflexivity|].
  destruct (JsObject.array_index k) as [m|]; [|reflexivity].
  destruct (N.ltb n m); [reflexivity|].
  rewrite IH. apply perm_swap.
Qed.

(** An assignment to a key the object does not have adds a property,
    unless the key is [__proto__]. *)
Lemma JsObject_set_new {V : Type} (o : JsObject.t V) (key : string) (v : V) :
  key <> "__proto__" -> ~ In key (JsMap.keys o) ->
  Permutation (JsObject.set o key v) ((key, v) :: o).
Proof.
  intros Hproto Hnew. unfold JsObject.set.
  destruct (String.eqb_spec key "__proto__") as [E|_]; [contradiction|].
  destruct (JsMap.has o key) eqn:Ehas.
  - apply has_keys in Ehas. contradiction.
  - destruct (JsObject.array_index key) as [n|].
    + apply insert_index_Permutation.
    + apply Permutation_sym, Permutation_cons_append.
Qed.

Lemma JsObject_set_proto {V : Type} (o : JsObject.t V) (v : V) :
  JsObject.set o "__proto__" v = o.
Proof. reflexivity. Qed.

Lemma own_entries_keys (totalDocs : nat) (fieldStats : JsMap.t (JsMap.t nat)) :
  JsMap.keys (own_entries totalDocs fieldStats)
  = filter (fun k => negb (String.eqb k "__proto__")) (JsMap.keys fieldStats).
Proof.
  unfold own_entries, JsMap.keys.
  induction fieldStats as [|[k tc] rest IH]; cbn [filter map fst];
    [reflexivity|].
  destruct (String.eqb k "__proto__"); cbn [negb map fst]; now rewrite IH.
Qed.

Lemma schema_fold (totalDocs : nat) (fieldStats : JsMap.t (JsMap.t nat)) :
  forall schema : SchemaResult,
    NoDup (JsMap.keys fieldStats) ->
    (forall k, In k (JsMap.keys fieldStats) -> ~ In k (JsMap.keys schema)) ->
    Permutation
      (fold_left
         (fun schema e =>
            JsObject.set schema (fst e) (field_schema totalDocs (snd e)))
         fieldStats schema)
      (schema ++ own_entries totalDocs fieldStats).
Proof.
  induction fieldStats as [|[k tc] rest IH]; intros schema Hnodup Hfresh.
  - cbn. now rewrite app_nil_r.
  - cbn [fold_left fst snd]. cbn [JsMap.keys map fst] in Hnodup, Hfresh.
    inversion Hnodup as [|? ? Hk Hrest]; subst.
    destruct (String.eqb_spec k "__proto__") as [->|Hproto].
    + rewrite JsObject_set_proto. rewrite IH; [reflexivity|exact Hrest|].
      intros k' Hk'. apply Hfresh. now right.
    + assert (Hset : Permutation
                       (JsObject.set schema k (field_schema totalDocs tc))
                       ((k, field_schema totalDocs tc) :: schema)).
      { apply JsObject_set_new; [exact Hproto|]. apply Hfresh. now left. }
      rewrite IH; [|exact Hrest|].
      * rewrite Hset. unfold own_entries. cbn [filter fst].
        destruct (String.eqb_spec k "__proto__") as [E|_]; [contradiction|].
        cbn [negb map fst snd]. apply Permutation_middle.
      * intros k' Hk' Hin.
        apply (Permutation_in _ (Permutation_map fst Hset)) in Hin.
        destruct Hin as [<-|Hin]; [contradiction|].
        apply (Hfresh k'); [now right|exact Hin].
Qed.

(** The own properties of the result: one per path of [fieldStats] other
    than [__proto__]. *)
Lemma inferSchema_entries (documents : list value) :
  documents <> [] ->
  Permutation (inferSchema documents)
              (own_entries (List.length documents) (collect documents)).
Proof.
  intros Hne. unfold inferSchema.
  destruct documents as [|doc documents]; [contradiction|].
  cbn [List.length Nat.eqb].
  apply (schema_fold _ _ []); [apply collect_NoDup|].
  intros k _ [].
Qed.

Lemma own_entries_NoDup (totalDocs : nat) (fieldStats : JsMap.t (JsMap.t nat)) :
  NoDup (JsMap.keys fieldStats) ->
  NoDup (JsMap.keys (own_entries totalDocs fieldStats)).
Proof. intros H. rewrite own_entries_keys. now apply NoDup_filter. Qed.

Lemma inferSchema_NoDup (documents : list value) :
  NoDup (JsMap.keys (inferSchema documents)).
Proof.
  destruct documents as [|doc documents]; [constructor|].
  eapply Permutation_NoDup.
  - apply Permutation_sym, (Permutation_map fst), inferSchema_entries.
    discriminate.
  - apply own_entries_NoDup, collect_NoDup.
Qed.

Lemma get_Permutation {V : Type} (m m' : JsMap.t V) (k : string) :
  NoDup (JsMap.keys m) -> Permutation m m' ->
  JsMap.get m k = JsMap.get m' k.
Proof.
  intros Hnodup Hperm.
  assert (Hnodup' : NoDup (JsMap.keys m'))
    by exact (Permutation_NoDup (Permutation_map fst Hperm) Hnodup).
  destruct (JsMap.get m k) as [v|] eqn:E.
  - apply get_In in E. apply (Permutation_in _ Hperm) in E.
    symmetry. now apply In_get.
  - destruct (JsMap.get m' k) as [v|] eqn:E'; [|reflexivity].
    apply get_In in E'. apply (Permutation_in _ (Permutation_sym Hperm)) in E'.
    apply (In_get _ _ _ Hnodup) in E'. congruence.
Qed.

Lemma get_own_entries (totalDocs : nat) (fieldStats : JsMap.t (JsMap.t nat))
      (k : string) :
  k <> "__proto__" ->
  JsMap.get (own_entries totalDocs fieldStats) k
  = option_map (field_schema totalDocs) (JsMap.get fieldStats k).
Proof.
  intros Hk. unfold own_entries.
  induction fieldStats as [|[a tc] rest IH]; cbn [filter fst]; [reflexivity|].
  destruct (String.eqb_spec a "__proto__") as [->|Ha];
    cbn [negb map JsMap.get fst snd].
  - destruct (String.eqb_spec k "__proto__") as [E|_]; [contradiction|].
    exact IH.
  - destruct (String.eqb k a); [reflexivity|exact IH].
Qed.

(** The entry [inferSchema] produces for a path. *)
Lemma inferSchema_get (documents : list value) (path : string) :
  documents <> [] ->
  path <> "__proto__" ->
  JsMap.get (inferSchema documents) path
  = if JsMap.has (collect documents) path
    then Some (field_schema (List.length documents)
                            (counts (collect documents) path))
    else None.
Proof.
  intros Hne Hpath.
  rewrite (get_Permutation _ _ path (inferSchema_NoDup documents)
             (inferSchema_entries documents Hne)).
  rewrite get_own_entries by exact Hpath.
  unfold JsMap.has, counts.
  now destruct (JsMap.get (collect documents) path).
Qed.

Lemma inferSchema_entry (documents : list value) (path : string)
      (entry : FieldSchema) :
  In (path, entry) (inferSchema documents) ->
  documents <> []
  /\ JsMap.has (collect documents) path = true
  /\ entry = field_schema (List.length documents)
                          (counts (collect documents) path).
Proof.
  intros Hin.
  assert (Hne : documents <> []) by (intros ->; destruct Hin).
  apply (Permutation_in _ (inferSchema_entries documents Hne)) in Hin.
  unfold own_entries in Hin. rewrite in_map_iff in Hin.
  destruct Hin as ([p tc] & [= -> <-] & Hin).
  apply filter_In in Hin. destruct Hin as [Hin _].
  apply (In_get _ _ _ (collect_NoDup _)) in Hin.
  unfold JsMap.has, counts. rewrite Hin. now repeat split.
Qed.

(** C7, as the code has it.  For a non-empty sample, every entry of the
    result has the percentage [Math.round(n / N * 100)], where [N] is the
    size of the sample and [n], at least 1 and at most [N], the number of
    documents that have the path.  For a sample of at most 1000 documents
    (the largest sample the tool draws) the percentage is an integer
    between 0 and 100, and it is at least 1 exactly when [N <= 200 * n],
    hence for every sample of at most 200 documents.  The kinds of the
    entry are the kinds the path has in some document of the sample. *)
Theorem inferSchema_entry_invariant
  (documents : list value) (path : string) (entry : FieldSchema) :
  documents <> [] ->
  In (path, entry) (inferSchema documents) ->
  percentage entry
  = percentage_of (presence documents path) (List.length documents)
  /\ 1 <= presence documents path <= List.length documents
  /\ (List.length documents <= 1000 ->
      exists p,
        (0 <= p <= 100)%Z
        /\ is_number (percentage entry) p
        /\ ((1 <= p)%Z
            <-> List.length documents <= 200 * presence documents path)
        /\ (List.length documents <= 200 -> (1 <= p)%Z))
  /\ (forall kind,
        In kind (types entry)
        <-> exists doc, In doc documents /\ kind_in doc path kind).
Proof.
  intros Hne Hin. apply inferSchema_entry in Hin.
  destruct Hin as (_ & Hhas & ->). apply collect_has in Hhas.
  pose proof (presence_le documents path) as Hle.
  cbn [percentage types field_schema]. rewrite collect_total.
  split; [reflexivity|].
  split; [lia|].
  split.
  - intros HN.
    destruct (percentage_of_percent (presence documents path)
                                    (List.length documents))
      as (p & Hp & Hnum & Hpos); try lia.
    exists p. split; [exact Hp|]. split; [exact Hnum|].
    split; [exact Hpos|]. intros H. apply Hpos. lia.
  - intros kind. now rewrite Array_sort_In, collect_kinds.
Qed.

Lemma inferSchema_entry_invariant_witness :
  1 <= presence sparse_sample "a" <= List.length sparse_sample
  /\ (exists p, (0 <= p <= 100)%Z /\ is_number 0%float p)
  /\ (forall kind,
        In kind ["null"]
        <-> exists doc, In doc sparse_sample /\ kind_in doc "a" kind).
Proof.
  destruct (inferSchema_entry_invariant
              sparse_sample "a" {| types := ["null"]; percentage := 0%float |})
    as (_ & Hn & Hp & Hk).
  - discriminate.
  - vm_compute. left. reflexivity.
  - split; [exact Hn|]. split; [|exact Hk].
    destruct Hp as (p & Hp & Hnum & _); [vm_compute; lia|].
    exists p. split; assumption.
Defined.

(** The percentage of a path that is present can be 0. *)
Lemma inferSchema_percentage_zero :
  exists entry,
    sparse_sample <> []
    /\ In ("a", entry) (inferSchema sparse_sample)
    /\ percentage entry = 0%float
    /\ PrimFloat.ltb 0 (percentage entry) = false.
Proof.
  exists {| types := ["null"]; percentage := 0%float |}.
  split; [discriminate|].
  split; [vm_compute; left; reflexivity|].
  split; reflexivity.
Qed.

(** ** Schema extraction: the shape of paths *)

Lemma string_app_assoc (a b c : string) :
  ((a ++ b) ++ c = a ++ (b ++ c))%string.
Proof. induction a as [|x a IH]; simpl; congruence. Qed.



Lemma fold_left_invariant_In {A B : Type} (P : A -> Prop) (f : A -> B -> A)
      (l : list B) :
  (forall a b, In b l -> P a -> P (f a b)) ->
  forall a, P a -> P (fold_left f l a).
Proof.
  induction l as [|b l IH]; intros Hf a Ha; cbn [fold_left]; [assumption|].
  apply IH.
  - intros a' b' Hb'. apply Hf. now right.
  - apply Hf; [now left|assumption].
Qed.











Lemma presence_all (documents : list value) (path : string) :
  (forall doc, In doc documents -> has_path doc path = true) ->
  presence documents path = List.length documents.
Proof.
  induction documents as [|doc documents IH]; intros H; [reflexivity|].
  rewrite presence_cons, (H doc (or_introl eq_refl)), IH; [reflexivity|].
  intros d Hd. apply H. now right.
Qed.

(** ** Schema inference: a field of mixed kinds *)







(** The side condition of [holds] on empty field names: under an empty
    field name the prefix of the nested walk is empty again, and the nested
    field [a] lands on the path of the top-level field [a]. *)
Example extractFields_empty_field_name :
  extractFields
    (VObject [("a", VNumber (of_Z 1)); ("", VObject [("a", VBoolean true)])])
    ""
  = [("a", "Boolean"); ("", "Object")].
Proof. reflexivity. Qed.

(** ** Schema extraction: where the walk descends *)

(** The walk recurses into exactly two kinds of values: objects that are
    not arrays, identifiers, dates or patterns, and [ArrayBuffer] views. *)
Lemma is_nested_object_iff (v : value) :
  is_nested_object v = true
  <-> (exists entries, v = VObject entries) \/ (exists bytes, v = VBinary bytes).
Proof.
  split.
  - destruct v; try discriminate; eauto.
  - intros [[entries ->]|[bytes ->]]; reflexivity.
Qed.

(** C8, at the input where the code departs from it.  [getBsonType]
    classifies an [ArrayBuffer] view as [Binary], yet [extractFields]
    descends into it: for [{ data: Buffer.from([1, 2]) }] the walk produces
    the paths [data.0] and [data.1] through the interior of the binary
    payload. *)
Theorem extractFields_descends_into_binary :
  getBsonType (VBinary [Byte.x01; Byte.x02]) = "Binary"
  /\ is_nested_object (VBinary [Byte.x01; Byte.x02]) = true
  /\ extractFields (VObject [("data", VBinary [Byte.x01; Byte.x02])]) ""
     = [("data", "Binary"); ("data.0", "Int"); ("data.1", "Int")].
Proof. repeat split. Qed.

(* ===================================================================== *)
(** * Part IV.  Further properties of the code                           *)
(* ===================================================================== *)

(** ** Limit policy: range and idempotence *)

Lemma clamp_range (x : number) (d mx : Q) :
  x <> NaN -> (0 < d)%Q -> (d <= mx)%Q ->
  exists c,
    (if num_le x (of_Z 0) then Fin d else Math_min x (Fin mx)) = Fin c
    /\ (0 < c)%Q /\ (c <= mx)%Q.
Proof.
  intros Hx Hd Hmx. destruct x as [| | |q]; [contradiction| | |].
  - exists mx. cbn. repeat split; [|apply Qle_refl].
    apply Qlt_le_trans with (y := d); assumption.
  - exists d. cbn. repeat split; assumption.
  - destruct (clamp_cases q d mx) as (Hlo & Hmid & Hhi).
    destruct (Qlt_le_dec 0 q) as [Hpos|Hneg].
    + destruct (Qlt_le_dec mx q) as [Hbig|Hsmall].
      * exists mx. rewrite (Hhi Hpos Hbig). repeat split; [|apply Qle_refl].
        apply Qlt_le_trans with (y := d); assumption.
      * exists q. rewrite (Hmid Hpos Hsmall). repeat split; assumption.
    + exists d. rewrite (Hlo Hneg). repeat split; assumption.
Qed.

(** X1.  Whatever limit is requested, as long as it is a number (not
    NaN), the effective limit is a finite number above 0 and at most 100,
    and the effective sample size one above 0 and at most 1000; an absent
    limit counts.  For an integer request the effective value is an integer
    between 1 and the maximum. *)
Theorem effective_limits_in_range (r : option number) :
  r <> Some NaN ->
  (exists c, applyLimit r = Fin c /\ (0 < c)%Q /\ (c <= 100)%Q)
  /\ (exists c, applySampleSize r = Fin c /\ (0 < c)%Q /\ (c <= 1000)%Q)
  /\ (forall z, r = Some (of_Z z) ->
        (exists z', applyLimit r = of_Z z' /\ (1 <= z' <= 100)%Z)
        /\ (exists z', applySampleSize r = of_Z z' /\ (1 <= z' <= 1000)%Z)).
Proof.
  intros Hr. split; [|split].
  - destruct r as [x|].
    + apply (clamp_range x (inject_Z 10) (inject_Z 100));
        [congruence|reflexivity|discriminate].
    + exists (inject_Z 10). repeat split. discriminate.
  - destruct r as [x|].
    + apply (clamp_range x (inject_Z 100) (inject_Z 1000));
        [congruence|reflexivity|discriminate].
    + exists (inject_Z 100). repeat split. discriminate.
  - intros z ->. unfold applyLimit, applySampleSize, of_Z. cbn [Math_min num_le].
    destruct (Qle_bool (inject_Z z) (inject_Z 0)) eqn:E0.
    + split; [exists 10%Z|exists 100%Z]; split; try reflexivity; lia.
    + assert (Hz : (1 <= z)%Z).
      { destruct (Z.le_gt_cases z 0) as [H|H]; [|lia].
        assert (Qle_bool (inject_Z z) (inject_Z 0) = true)
          by (apply Qle_bool_iff; rewrite <- Zle_Qle; exact H).
        congruence. }
      split.
      * cbn [maxLimit SECURITY_LIMITS of_Z].
        destruct (Qle_bool (inject_Z z) (inject_Z 100)) eqn:E.
        -- exists z. split; [reflexivity|].
           apply Qle_bool_iff in E. rewrite <- Zle_Qle in E. lia.
        -- exists 100%Z. split; [reflexivity|lia].
      * cbn [maxSampleSize SECURITY_LIMITS of_Z].
        destruct (Qle_bool (inject_Z z) (inject_Z 1000)) eqn:E.
        -- exists z. split; [reflexivity|].
           apply Qle_bool_iff in E. rewrite <- Zle_Qle in E. lia.
        -- exists 1000%Z. split; [reflexivity|lia].
Qed.

Lemma effective_limits_in_range_witness :
  (exists c, applyLimit (Some (Fin (1 # 2))) = Fin c /\ (0 < c)%Q /\ (c <= 100)%Q)
  /\ (exists z', applyLimit (Some (of_Z 250)) = of_Z z' /\ (1 <= z' <= 100)%Z).
Proof.
  split.
  - refine (proj1 (effective_limits_in_range (Some (Fin (1 # 2))) _)).
    discriminate.
  - refine (proj1 (proj2 (proj2 (effective_limits_in_range
                                   (Some (of_Z 250)) _)) 250%Z eq_refl)).
    discriminate.
Defined.

(** X2.  Applying the limit policy to an effective limit changes nothing:
    the effective limit and the effective sample size are fixed points of
    their functions. *)
Theorem effective_limits_idempotent (r : option number) :
  applyLimit (Some (applyLimit r)) = applyLimit r
  /\ applySampleSize (Some (applySampleSize r)) = applySampleSize r.
Proof.
  assert (H : forall x mx d,
             num_le (Fin d) (of_Z 0) = false ->
             num_le (Fin d) (Fin mx) = true ->
             num_le (Fin mx) (of_Z 0) = false ->
             num_le (Fin mx) (Fin mx) = true ->
             let f := fun y => if num_le y (of_Z 0) then Fin d
                               else Math_min y (Fin mx) in
             f (f x) = f x).
  { intros x mx d Hd0 Hdm Hm0 Hmm f. subst f. cbv beta.
    destruct x as [| | |q]; cbn [num_le Math_min of_Z] in *.
    - reflexivity.
    - now rewrite Hm0, Hmm.
    - now rewrite Hd0, Hdm.
    - destruct (Qle_bool q (inject_Z 0)) eqn:E0.
      + cbn [num_le Math_min of_Z]. now rewrite Hd0, Hdm.
      + destruct (Qle_bool q mx) eqn:E; cbn [num_le Math_min of_Z].
        * now rewrite E0, E.
        * now rewrite Hm0, Hmm. }
  split.
  - destruct r as [x|]; [|reflexivity].
    exact (H x (inject_Z 100) (inject_Z 10) eq_refl eq_refl eq_refl eq_refl).
  - destruct r as [x|]; [|reflexivity].
    exact (H x (inject_Z 1000) (inject_Z 100) eq_refl eq_refl eq_refl eq_refl).
Qed.

(** ** Pipeline validation: order of the checks *)

Lemma bind_assoc {A B C : Type} (c : result A) (k : A -> result B)
      (k' : B -> result C) :
  bind (bind c k) k' = bind c (fun a => bind (k a) k').
Proof. destruct c; reflexivity. Qed.

(** X3.  The stages of a pipeline are validated one after the other, each
    on its own: validating a concatenation is validating the first part and
    then, when that passes, the second; the error of the first offending
    stage is the one thrown. *)
Theorem validatePipeline_app (p q : list record) :
  validatePipeline (p ++ q) = (validatePipeline p ;;; validatePipeline q).
Proof.
  induction p as [|stage p IH]; [reflexivity|].
  cbn [app]. rewrite !validatePipeline_cons, IH.
  now rewrite !bind_assoc.
Qed.

Lemma check_stage_keys_find (stageKeys : list string) :
  check_stage_keys stageKeys
  = match find (includes PROHIBITED_STAGES) stageKeys with
    | Some key => Throw (Error (stage_message key))
    | None => Ok tt
    end.
Proof.
  induction stageKeys as [|key rest IH]; cbn [check_stage_keys find];
    [reflexivity|].
  destruct (includes PROHIBITED_STAGES key); [reflexivity|exact IH].
Qed.

Lemma stage_message_quotes (k : string) : names (stage_message k) k.
Proof.
  exists ("Prohibited stage " ++ dq)%string.
  eexists. unfold stage_message. simpl. reflexivity.
Qed.

(** X4.  Within a stage the check of the stage's own keys comes first:
    when a stage has denylisted keys, the error names the first of them in
    key order, whatever the stage holds under [$lookup] or deeper down. *)
Theorem validatePipeline_reports_first_stage_key
  (stage : record) (rest : list record) (k : string) :
  find (includes PROHIBITED_STAGES) (Object_keys stage) = Some k ->
  validatePipeline (stage :: rest) = Throw (Error (stage_message k))
  /\ names (stage_message k) k
  /\ In k PROHIBITED_STAGES
  /\ In k (Object_keys stage).
Proof.
  intros H. rewrite validatePipeline_cons, check_stage_keys_find, H.
  split; [reflexivity|]. split; [apply stage_message_quotes|].
  apply find_some in H. destruct H as [Hin Hk].
  split; [now apply includes_In|assumption].
Qed.

Lemma validatePipeline_reports_first_stage_key_witness :
  validatePipeline [stage_with_several_violations]
  = Throw (Error (stage_message "$out")).
Proof.
  apply (validatePipeline_reports_first_stage_key
           stage_with_several_violations [] "$out").
  reflexivity.
Defined.

Lemma validateFilter_rejects (filter : json) (k : string) :
  In k PROHIBITED_FILTER_OPERATORS -> key_occurs k filter ->
  throws (validateFilter filter).
Proof.
  intros Hk Hocc.
  destruct (containsProhibitedOperator filter PROHIBITED_FILTER_OPERATORS)
    as [found|] eqn:E.
  - exists (Error (filter_message found)). now apply validateFilter_throws.
  - destruct (scan_complete filter_denylist_truthy E k Hk Hocc).
Qed.

(** X5.  The pipeline validator does not look for [$where]: a [$match]
    stage whose filter holds no [$function] and no [$accumulator] passes
    [validatePipeline], also when the filter holds [$where] and is
    therefore rejected by [validateFilter]. *)
Theorem validatePipeline_accepts_where (filter : json) :
  (forall k, code_execution_operator k -> ~ key_occurs k filter) ->
  validatePipeline [[("$match", filter)]] = Ok tt
  /\ (key_occurs "$where" filter -> throws (validateFilter filter)).
Proof.
  intros Hclean. split.
  - apply validatePipeline_ok. constructor; [|constructor].
    split; [|split].
    + intros k [<-|[]] [[H|H]|[H|H]]; discriminate.
    + exact I.
    + intros k Hk Hocc.
      inversion Hocc as [entries v Hv|entries k' v Hv Hkv|]; subst.
      * destruct Hv as [[= <- _]|[]].
        destruct Hk as [H|H]; discriminate.
      * destruct Hv as [[= _ <-]|[]]. exact (Hclean k Hk Hkv).
  - apply validateFilter_rejects. left. reflexivity.
Qed.

Lemma validatePipeline_accepts_where_witness :
  validatePipeline match_where_pipeline = Ok tt
  /\ throws (validateFilter (JObj [("$where", JStr "sleep(1)")])).
Proof.
  destruct (validatePipeline_accepts_where
              (JObj [("$where", JStr "sleep(1)")])) as [Hok Hthrows].
  - intros k Hk. apply code_denylist in Hk.
    exact (scan_complete code_denylist_truthy
             (obj := JObj [("$where", JStr "sleep(1)")]) eq_refl k Hk).
  - split; [exact Hok|]. apply Hthrows.
    eapply occurs_key. left. reflexivity.
Defined.

(** ** The aggregate tool: rejection and response *)

(** X6.  A pipeline that fails validation never reaches the database: the
    tool issues no call and throws the validator's error.  The same holds
    when the database is not configured or not reachable. *)
Theorem aggregateTool_rejects_before_database
  (connect : string -> result unit)
  (toArray : aggregate_call -> result (list value))
  (EJSON_stringify : list value -> bool -> nat -> string)
  (env : environment) (args : AggregateArgs) (e : exn) :
  (validatePipeline (pipeline args) = Throw e ->
   aggregateTool connect toArray EJSON_stringify env args = ([], Throw e))
  /\ (validatePipeline (pipeline args) = Ok tt ->
      getDatabase connect env = Throw e ->
      aggregateTool connect toArray EJSON_stringify env args = ([], Throw e)).
Proof.
  unfold aggregateTool. split.
  - intros ->. reflexivity.
  - intros -> ->. reflexivity.
Qed.

Lemma aggregateTool_rejects_before_database_witness :
  aggregateTool (fun _ => Ok tt) (fun _ => Ok []) (fun _ _ _ => "")
                env_configured args_with_out
  = ([], Throw (Error (stage_message "$out")))
  /\ aggregateTool (fun _ => Ok tt) (fun _ => Ok []) (fun _ _ _ => "")
                   env_without_db args_without_limit
     = ([], Throw (Error "MONGODB_DB environment variable is not set")).
Proof.
  split.
  - apply (proj1 (aggregateTool_rejects_before_database
                    (fun _ => Ok tt) (fun _ => Ok []) (fun _ _ _ => "")
                    env_configured args_with_out
                    (Error (stage_message "$out")))).
    reflexivity.
  - apply (proj2 (aggregateTool_rejects_before_database
                    (fun _ => Ok tt) (fun _ => Ok []) (fun _ _ _ => "")
                    env_without_db args_without_limit
                    (Error "MONGODB_DB environment variable is not set")));
      reflexivity.
Defined.

Lemma aggregateTool_run
  (connect : string -> result unit)
  (toArray : aggregate_call -> result (list value))
  (EJSON_stringify : list value -> bool -> nat -> string)
  (env : environment) (args : AggregateArgs) (db : Db) :
  validatePipeline (pipeline args) = Ok tt ->
  getDatabase connect env = Ok db ->
  aggregateTool connect toArray EJSON_stringify env args
  = ([aggregate_call_of db args],
     match toArray (aggregate_call_of db args) with
     | Ok documents =>
         Ok (formatDocuments EJSON_stringify
               (message_of db (collection args) documents) documents)
     | Throw e => Throw e
     end).
Proof.
  intros Hvalid Hdb.
  pose proof (getDatabase_name _ _ _ Hdb) as Hname.
  unfold aggregateTool. rewrite Hvalid, Hdb, Hname, appended_limit.
  cbn [lift io_bind app]. unfold run_aggregate, aggregate_call_of,
    effective_pipeline.
  destruct (hasLimitStage (pipeline args)); cbn [negb io_bind];
    destruct (toArray _); reflexivity.
Qed.

(** X7.  The response of the aggregate tool: the status line comes first,
    and the serialized documents follow exactly when the database returned
    at least one document; a failure of the database call is thrown on
    unchanged, after the one call. *)
Theorem aggregateTool_response
  (connect : string -> result unit)
  (toArray : aggregate_call -> result (list value))
  (EJSON_stringify : list value -> bool -> nat -> string)
  (env : environment) (args : AggregateArgs) (db : Db) :
  validatePipeline (pipeline args) = Ok tt ->
  getDatabase connect env = Ok db ->
  (toArray (aggregate_call_of db args) = Ok [] ->
   snd (aggregateTool connect toArray EJSON_stringify env args)
   = Ok [textContent (message_of db (collection args) [])])
  /\ (forall doc docs,
        toArray (aggregate_call_of db args) = Ok (doc :: docs) ->
        snd (aggregateTool connect toArray EJSON_stringify env args)
        = Ok [textContent (message_of db (collection args) (doc :: docs));
              textContent (EJSON_stringify (doc :: docs) true 2)])
  /\ (forall e,
        toArray (aggregate_call_of db args) = Throw e ->
        aggregateTool connect toArray EJSON_stringify env args
        = ([aggregate_call_of db args], Throw e)).
Proof.
  intros Hvalid Hdb.
  rewrite (aggregateTool_run _ toArray EJSON_stringify _ _ _ Hvalid Hdb).
  split; [|split].
  - intros ->. reflexivity.
  - intros doc docs ->. reflexivity.
  - intros e ->. reflexivity.
Qed.

Lemma aggregateTool_response_witness :
  snd (aggregateTool (fun _ => Ok tt) (fun _ => Ok [VObject []])
                     (fun _ _ _ => "[{}]") env_configured args_without_limit)
  = Ok [textContent
          (message_of "shop" "orders" [VObject []]);
        textContent "[{}]"].
Proof.
  refine (proj1 (proj2 (aggregateTool_response
                          (fun _ => Ok tt) (fun _ => Ok [VObject []])
                          (fun _ _ _ => "[{}]") env_configured
                          args_without_limit "shop" eq_refl eq_refl))
                (VObject []) [] eq_refl).
Defined.

(** ** The route: API key *)

Lemma unset_false_iff (x : option string) :
  unset x = false <-> exists s, s <> "" /\ x = Some s.
Proof.
  destruct x as [[|c s]|]; cbn; split; try discriminate.
  - intros (s & Hs & [= <-]). now destruct Hs.
  - intros _. eexists. split; [|reflexivity]. discriminate.
  - reflexivity.
  - intros (s & _ & [=]).
Qed.

Lemma validateApiKey_None (Request : Type)
      (headers_get : Request -> string -> option string)
      (API_KEY : option string) (request : Request) :
  Route.validateApiKey Request headers_get API_KEY request = None
  <-> authorized API_KEY (headers_get request "X-API-Key").
Proof.
  unfold Route.validateApiKey, authorized.
  destruct (unset API_KEY) eqn:Ee.
  - split; [discriminate|].
    intros (key & Hkey & -> & _). destruct key; [now destruct Hkey|discriminate].
  - apply unset_false_iff in Ee. destruct Ee as (expected & Hexp & ->).
    destruct (unset (headers_get request "X-API-Key")) eqn:Ea.
    + split; [discriminate|].
      intros (key & Hkey & _ & E). rewrite E in Ea.
      destruct key; [now destruct Hkey|discriminate].
    + apply unset_false_iff in Ea. destruct Ea as (given & Hgiven & ->).
      cbn [env_value].
      destruct (String.eqb_spec given expected) as [->|Hne]; cbn [negb].
      * split; [|reflexivity]. intros _. now exists expected.
      * split; [discriminate|].
        intros (key & _ & [= <-] & [= E]). now destruct Hne.
Qed.

(** X8.  [validateApiKey] lets a request through exactly when [API_KEY]
    is set to a non-empty key and the [X-API-Key] header is that very key.
    Otherwise it answers 500 when [API_KEY] is unset or empty, whatever the
    request carries, and 401 when the key is configured. *)
Theorem validateApiKey_accepts_the_configured_key_only
  (Request : Type) (headers_get : Request -> string -> option string)
  (API_KEY : option string) (request : Request) :
  (Route.validateApiKey Request headers_get API_KEY request = None
   <-> authorized API_KEY (headers_get request "X-API-Key"))
  /\ (forall response,
        Route.validateApiKey Request headers_get API_KEY request
        = Some response ->
        (unset API_KEY = true /\ Route.status response = 500)
        \/ (unset API_KEY = false /\ Route.status response = 401)).
Proof.
  split; [apply validateApiKey_None|].
  intros response. unfold Route.validateApiKey.
  destruct (unset API_KEY).
  - intros [= <-]. now left.
  - destruct (unset _); [intros [= <-]; now right|].
    destruct (negb _); [intros [= <-]; now right|discriminate].
Qed.

(** X9.  The wrapped handler reaches the MCP handler for authorized
    requests only, and then returns what it returns; for every other request
    the answer is an error response that does not depend on the MCP
    handler. *)
Theorem handler_guards_the_mcp_handler
  (Request : Type) (headers_get : Request -> string -> option string)
  (API_KEY : option string) (mcpHandler : Request -> result Route.Response)
  (request : Request) :
  (authorized API_KEY (headers_get request "X-API-Key") ->
   Route.handler Request headers_get API_KEY mcpHandler request
   = mcpHandler request)
  /\ (~ authorized API_KEY (headers_get request "X-API-Key") ->
      exists response,
        (Route.status response = 401 \/ Route.status response = 500)
        /\ forall other : Request -> result Route.Response,
             Route.handler Request headers_get API_KEY other request
             = Ok response).
Proof.
  unfold Route.handler. split.
  - intros Hauth. apply validateApiKey_None in Hauth. now rewrite Hauth.
  - intros Hno.
    destruct (Route.validateApiKey Request headers_get API_KEY request)
      as [response|] eqn:E.
    + exists response. split; [|reflexivity].
      revert E. unfold Route.validateApiKey.
      destruct (unset API_KEY); [intros [= <-]; now right|].
      destruct (unset _); [intros [= <-]; now left|].
      destruct (negb _); [intros [= <-]; now left|discriminate].
    + apply validateApiKey_None in E. contradiction.
Qed.

(** ** The client singleton *)

Lemma getMongoClient_state (connect : nat -> string -> result unit)
      (env : environment) (st : Singleton.module_state) :
  let st' := fst (Singleton.getMongoClient connect env st) in
  (st' = st
   /\ (unset (MONGODB_URI env) = true
       \/ Singleton.client st <> None
       \/ Singleton.clientPromise st <> None))
  \/ (Singleton.client st = None
      /\ Singleton.clientPromise st = None
      /\ unset (MONGODB_URI env) = false
      /\ let uri := env_value (MONGODB_URI env) in
         let outcome :=
           connect (List.length (Singleton.connections st)) uri ;;; Ok uri in
         st' = {| Singleton.client :=
                    match outcome with Ok c => Some c | Throw _ => None end;
                  Singleton.clientPromise := Some outcome;
                  Singleton.connections :=
                    Singleton.connections st ++ [uri] |}).
Proof.
  unfold Singleton.getMongoClient.
  destruct (unset (MONGODB_URI env)); [left; auto|].
  destruct (Singleton.client st) eqn:Ec;
    [left; split; [reflexivity|right; left; discriminate]|].
  destruct (Singleton.clientPromise st) eqn:Ep;
    [left; split; [reflexivity|right; right; discriminate]|].
  right. repeat split.
  destruct (connect _ _); reflexivity.
Qed.

Lemma getDatabase_state (connect : nat -> string -> result unit)
      (env : environment) (st : Singleton.module_state) :
  fst (Singleton.getDatabase connect env st) = st
  \/ fst (Singleton.getDatabase connect env st)
     = fst (Singleton.getMongoClient connect env st).
Proof.
  unfold Singleton.getDatabase.
  destruct (unset (MONGODB_DB env)); [now left|].
  destruct (Singleton.getMongoClient connect env st). now right.
Qed.

(** The states a module can be in: fresh, or settled on the outcome of
    its one connection. *)
Lemma state_after_cases (connect : nat -> string -> result unit)
      (envs : list environment) :
  state_after connect envs = Singleton.loaded
  \/ exists uri,
       let outcome := connect 0 uri ;;; Ok uri in
       state_after connect envs
       = {| Singleton.client :=
              match outcome with Ok c => Some c | Throw _ => None end;
            Singleton.clientPromise := Some outcome;
            Singleton.connections := [uri] |}.
Proof.
  unfold state_after.
  induction envs as [|env envs IH] using rev_ind; [now left|].
  rewrite fold_left_app. cbn [fold_left].
  set (st := fold_left _ envs _) in *.
  destruct (getDatabase_state connect env st) as [->| ->]; [exact IH|].
  destruct (getMongoClient_state connect env st)
    as [[-> _]|(Hc & Hp & _ & Hst)]; [exact IH|].
  destruct IH as [IH|(uri & IH)].
  - right. exists (env_value (MONGODB_URI env)). cbn zeta in Hst.
    rewrite Hst, IH. reflexivity.
  - cbn zeta in IH. rewrite IH in Hp. discriminate.
Qed.

(** X10.  However many times the database is asked for, and under whatever
    environments, [MongoClient.connect] is called at most once; after that
    call the module holds the outcome of that one call, and a client exactly
    when it succeeded. *)
Theorem getDatabase_connects_at_most_once
  (connect : nat -> string -> result unit) (envs : list environment) :
  (List.length (Singleton.connections (state_after connect envs)) <= 1)%nat
  /\ (Singleton.connections (state_after connect envs) = [] ->
      state_after connect envs = Singleton.loaded)
  /\ (forall uri,
        Singleton.connections (state_after connect envs) = [uri] ->
        Singleton.clientPromise (state_after connect envs)
        = Some (connect 0 uri ;;; Ok uri)
        /\ (Singleton.client (state_after connect envs) = Some uri
            <-> connect 0 uri = Ok tt)
        /\ (Singleton.client (state_after connect envs) = None
            <-> throws (connect 0 uri))).
Proof.
  destruct (state_after_cases connect envs) as [->|(uri & H)].
  - split; [cbn; lia|]. split; [reflexivity|]. intros uri [=].
  - cbn zeta in H. rewrite H. cbn.
    split; [lia|]. split; [discriminate|].
    intros uri' [= <-]. split; [reflexivity|].
    destruct (connect 0 uri) as [[]|e]; cbn; split; split;
      try reflexivity; try discriminate.
    + intros (e & [=]).
    + intros _. now exists e.
Qed.

(** X11.  Once a connection has been attempted, every later invocation
    with both variables set gets the outcome of that attempt and leaves the
    module as it is: a failed attempt is not repeated, and a connected
    client is handed out again also when [MONGODB_URI] has changed since;
    only the database name follows the environment. *)
Theorem getDatabase_keeps_the_first_outcome
  (connect : nat -> string -> result unit) (envs : list environment)
  (env : environment) (outcome : result Singleton.MongoClient) :
  Singleton.clientPromise (state_after connect envs) = Some outcome ->
  unset (MONGODB_URI env) = false ->
  unset (MONGODB_DB env) = false ->
  Singleton.getDatabase connect env (state_after connect envs)
  = (state_after connect envs,
     mongoClient <- outcome ;;
     Ok {| Singleton.db_client := mongoClient;
           Singleton.db_name := env_value (MONGODB_DB env) |}).
Proof.
  intros Hp Huri Hdb.
  destruct (state_after_cases connect envs) as [E|(uri & E)].
  - rewrite E in Hp. discriminate.
  - cbn zeta in E. rewrite E in Hp |- *. cbn in Hp. injection Hp as <-.
    unfold Singleton.getDatabase, Singleton.getMongoClient.
    rewrite Hdb, Huri. cbn.
    destruct (connect 0 uri) as [[]|e]; reflexivity.
Qed.

Lemma getDatabase_keeps_the_first_outcome_witness :
  Singleton.getDatabase connect_second_time env_other_uri
    (state_after connect_second_time [env_configured])
  = (state_after connect_second_time [env_configured],
     Throw (Error "Server selection timed out")).
Proof.
  apply (getDatabase_keeps_the_first_outcome
           connect_second_time [env_configured] env_other_uri
           (Throw (Error "Server selection timed out")));
    reflexivity.
Defined.

(** ** The find and count tools *)

Lemma validateFilter_ok_free (filter : record) :
  validateFilter (JObj filter) = Ok tt -> free_of_scripting filter.
Proof.
  intros Hok k Hk Hocc.
  destruct (validateFilter_rejects (JObj filter) k) as [e He];
    [now apply filter_denylist|exact Hocc|].
  congruence.
Qed.

Lemma applyLimit_range (r : option number) :
  r <> Some NaN ->
  exists c, applyLimit r = Fin c /\ (0 < c)%Q /\ (c <= 100)%Q.
Proof.
  intros Hr. destruct r as [x|].
  - apply (clamp_range x (inject_Z 10) (inject_Z 100));
      [congruence|reflexivity|discriminate].
  - exists (inject_Z 10). repeat split. discriminate.
Qed.

Lemma findTool_run
  (connect : string -> result unit)
  (toArray : Find.find_call -> result (list value))
  (EJSON_stringify : list value -> bool -> nat -> string)
  (env : environment) (args : Find.FindArgs) :
  Find.findTool connect toArray EJSON_stringify env args
  = match validateFilter (JObj (Find.filter args)) with
    | Throw e => ([], Throw e)
    | Ok _ =>
        match getDatabase connect env with
        | Throw e => ([], Throw e)
        | Ok db =>
            ([find_call_of db args],
             match toArray (find_call_of db args) with
             | Ok documents =>
                 Ok (formatDocuments EJSON_stringify
                       (Find.message_of db (Find.collection args) documents
                          (applyLimit (Find.limit args)))
                       documents)
             | Throw e => Throw e
             end)
        end
    end.
Proof.
  unfold Find.findTool.
  destruct (validateFilter _); [|reflexivity].
  destruct (getDatabase connect env) as [db|e] eqn:Hdb; [|reflexivity].
  rewrite (getDatabase_name _ _ _ Hdb).
  cbn [Run.lift Run.io_bind Run.call app]. unfold find_call_of.
  cbn [maxTimeMS SECURITY_LIMITS].
  destruct (toArray _); reflexivity.
Qed.

Lemma countTool_run
  (connect : string -> result unit)
  (countDocuments : Count.count_call -> result nat)
  (toLocaleString : nat -> string)
  (env : environment) (args : Count.CountArgs) :
  fst (Count.countTool connect countDocuments toLocaleString env args)
  = match validateFilter (JObj (Count.filter args)) with
    | Throw e => []
    | Ok _ =>
        match getDatabase connect env with
        | Throw e => []
        | Ok db => [count_call_of db args]
        end
    end
  /\ (forall e,
        validateFilter (JObj (Count.filter args)) = Throw e ->
        snd (Count.countTool connect countDocuments toLocaleString env args)
        = Throw e).
Proof.
  unfold Count.countTool. split.
  - destruct (validateFilter _); [|reflexivity].
    destruct (getDatabase connect env) as [db|e] eqn:Hdb; [|reflexivity].
    rewrite (getDatabase_name _ _ _ Hdb).
    cbn [Run.lift Run.io_bind Run.call app]. unfold count_call_of.
    cbn [maxTimeMS SECURITY_LIMITS].
    destruct (countDocuments _); reflexivity.
  - intros e ->. reflexivity.
Qed.

(** X12.  Whatever the find tool sends to the database has passed the
    checks: there is one call, its filter is the caller's and holds no
    scripting operator at any depth, its limit is the effective limit (a
    number above 0 and at most 100 unless the request was NaN), and its
    time limit is 30000 ms. *)
Theorem findTool_calls_are_guarded
  (connect : string -> result unit)
  (toArray : Find.find_call -> result (list value))
  (EJSON_stringify : list value -> bool -> nat -> string)
  (env : environment) (args : Find.FindArgs) (c : Find.find_call) :
  In c (fst (Find.findTool connect toArray EJSON_stringify env args)) ->
  fst (Find.findTool connect toArray EJSON_stringify env args) = [c]
  /\ getDatabase connect env = Ok (Find.call_db c)
  /\ Find.call_collection c = Find.collection args
  /\ Find.call_filter c = Find.filter args
  /\ free_of_scripting (Find.call_filter c)
  /\ Find.call_limit c = applyLimit (Find.limit args)
  /\ (Find.limit args <> Some NaN ->
      exists q, Find.call_limit c = Fin q /\ (0 < q)%Q /\ (q <= 100)%Q)
  /\ Find.call_maxTimeMS c = 30000%Z.
Proof.
  rewrite findTool_run.
  destruct (validateFilter _) as [[]|e] eqn:Hvalid; [|intros []].
  destruct (getDatabase connect env) as [db|e] eqn:Hdb; [|intros []].
  cbn [fst]. intros [<-|[]]. cbn.
  repeat split; try reflexivity.
  - now apply validateFilter_ok_free.
  - apply applyLimit_range.
Qed.

Lemma findTool_calls_are_guarded_witness :
  exists q, applyLimit (Some (of_Z 250)) = Fin q /\ (0 < q)%Q /\ (q <= 100)%Q.
Proof.
  refine (proj1 (proj2 (proj2 (proj2 (proj2 (proj2 (proj2
    (findTool_calls_are_guarded
       (fun _ => Ok tt) (fun _ => Ok []) (fun _ _ _ => "")
       env_configured find_args_over_limit
       (find_call_of "shop" find_args_over_limit) _))))))) _).
  - left. reflexivity.
  - discriminate.
Defined.

(** X13.  Whatever the count tool sends to the database has passed the
    check: there is one call, its filter is the caller's and holds no
    scripting operator at any depth, and its time limit is 30000 ms. *)
Theorem countTool_calls_are_guarded
  (connect : string -> result unit)
  (countDocuments : Count.count_call -> result nat)
  (toLocaleString : nat -> string)
  (env : environment) (args : Count.CountArgs) (c : Count.count_call) :
  In c (fst (Count.countTool connect countDocuments toLocaleString env args))
  ->
  fst (Count.countTool connect countDocuments toLocaleString env args) = [c]
  /\ getDatabase connect env = Ok (Count.call_db c)
  /\ Count.call_collection c = Count.collection args
  /\ Count.call_filter c = Count.filter args
  /\ free_of_scripting (Count.call_filter c)
  /\ Count.call_maxTimeMS c = 30000%Z.
Proof.
  rewrite (proj1 (countTool_run _ _ _ _ _)).
  destruct (validateFilter _) as [[]|e] eqn:Hvalid; [|intros []].
  destruct (getDatabase connect env) as [db|e] eqn:Hdb; [|intros []].
  intros [<-|[]]. cbn.
  repeat split; try reflexivity.
  now apply validateFilter_ok_free.
Qed.

Lemma countTool_calls_are_guarded_witness :
  free_of_scripting [("status", JStr "active")].
Proof.
  refine (proj1 (proj2 (proj2 (proj2 (proj2
    (countTool_calls_are_guarded
       (fun _ => Ok tt) (fun _ => Ok 3) (fun _ => "3")
       env_configured count_args_active
       (count_call_of "shop" count_args_active) _)))))).
  left. reflexivity.
Defined.

(** X14.  A filter that holds a scripting operator key at any depth makes
    the find tool and the count tool throw the validator's error without a
    call to the database, and before the environment is looked at. *)
Theorem find_and_count_reject_scripting_filters (filter : record) (k : string) :
  scripting_operator k ->
  key_occurs k (JObj filter) ->
  exists e,
    validateFilter (JObj filter) = Throw e
    /\ (forall connect toArray EJSON_stringify env args,
          Find.filter args = filter ->
          Find.findTool connect toArray EJSON_stringify env args
          = ([], Throw e))
    /\ (forall connect countDocuments toLocaleString env args,
          Count.filter args = filter ->
          Count.countTool connect countDocuments toLocaleString env args
          = ([], Throw e)).
Proof.
  intros Hk Hocc.
  destruct (validateFilter_rejects (JObj filter) k) as [e He];
    [now apply filter_denylist|exact Hocc|].
  exists e. split; [exact He|]. split.
  - intros connect toArray EJSON_stringify env args <-.
    rewrite findTool_run. now rewrite He.
  - intros connect countDocuments toLocaleString env args <-.
    unfold Count.countTool. now rewrite He.
Qed.

Lemma find_and_count_reject_scripting_filters_witness :
  exists e,
    validateFilter (JObj where_filter) = Throw e
    /\ (forall connect toArray EJSON_stringify env args,
          Find.filter args = where_filter ->
          Find.findTool connect toArray EJSON_stringify env args
          = ([], Throw e))
    /\ (forall connect countDocuments toLocaleString env args,
          Count.filter args = where_filter ->
          Count.countTool connect countDocuments toLocaleString env args
          = ([], Throw e)).
Proof.
  apply (find_and_count_reject_scripting_filters where_filter "$where").
  - left. reflexivity.
  - eapply occurs_key. left. reflexivity.
Defined.

(** ** The list-collections tool *)

Lemma insert_sorted_Permutation (x : string) (l : list string) :
  Permutation (insert_sorted x l) (x :: l).
Proof.
  induction l as [|y l IH]; cbn [insert_sorted]; [reflexivity|].
  destruct (String.leb x y); [reflexivity|].
  rewrite IH. apply perm_swap.
Qed.

Lemma Array_sort_Permutation (l : list string) :
  Permutation (Array_sort l) l.
Proof.
  unfold Array_sort. induction l as [|x l IH]; cbn [fold_right];
    [reflexivity|].
  rewrite insert_sorted_Permutation. now constructor.
Qed.

Lemma insert_sorted_ascending (x : string) (l : list string) :
  ascending l -> ascending (insert_sorted x l).
Proof.
  unfold ascending. induction l as [|y l IH]; cbn [insert_sorted]; intros Hl.
  - repeat constructor.
  - destruct (String.leb x y) eqn:E.
    + constructor; [exact Hl|]. constructor. exact E.
    + inversion Hl as [|? ? Hsorted Hhd]; subst.
      constructor; [now apply IH|].
      assert (Hyx : String.leb y x = true).
      { destruct (String.leb_total x y); congruence. }
      destruct l as [|z l]; cbn [insert_sorted].
      * constructor. exact Hyx.
      * destruct (String.leb x z); constructor; [exact Hyx|].
        now inversion Hhd.
Qed.

Lemma Array_sort_ascending (l : list string) : ascending (Array_sort l).
Proof.
  unfold Array_sort. induction l as [|x l IH]; cbn [fold_right].
  - constructor.
  - now apply insert_sorted_ascending.
Qed.

Lemma units_leb_total (x : list N) :
  forall y, ListCollections.units_leb x y = true
            \/ ListCollections.units_leb y x = true.
Proof.
  induction x as [|a x IH]; intros [|b y]; cbn [ListCollections.units_leb];
    auto.
  destruct (N.lt_total a b) as [H|[H|H]].
  - left. apply N.ltb_lt in H. now rewrite H.
  - subst b. rewrite N.eqb_refl, N.ltb_irrefl. cbn [orb andb]. apply IH.
  - right. apply N.ltb_lt in H. now rewrite H.
Qed.

Lemma units_leb_trans (x : list N) :
  forall y z,
    ListCollections.units_leb x y = true ->
    ListCollections.units_leb y z = true ->
    ListCollections.units_leb x z = true.
Proof.
  induction x as [|a x IH]; intros [|b y] [|c z];
    cbn [ListCollections.units_leb]; try reflexivity; try discriminate.
  rewrite !orb_true_iff, !andb_true_iff, !N.ltb_lt, !N.eqb_eq.
  intros [Hab|[-> Hxy]] [Hbc|[-> Hyz]].
  - left. now apply N.lt_trans with (m := b).
  - now left.
  - now left.
  - right. split; [reflexivity|]. now apply (IH y z).
Qed.

Lemma names_insert_Permutation (x : string) (l : list string) :
  Permutation (ListCollections.insert_sorted x l) (x :: l).
Proof.
  induction l as [|y l IH]; cbn [ListCollections.insert_sorted];
    [reflexivity|].
  destruct (ListCollections.code_unit_leb x y); [reflexivity|].
  rewrite IH. apply perm_swap.
Qed.

Lemma names_sort_Permutation (l : list string) :
  Permutation (ListCollections.Array_sort l) l.
Proof.
  unfold ListCollections.Array_sort.
  induction l as [|x l IH]; cbn [fold_right]; [reflexivity|].
  rewrite names_insert_Permutation. now constructor.
Qed.

Lemma names_insert_ascending (x : string) (l : list string) :
  ascending_code_units l ->
  ascending_code_units (ListCollections.insert_sorted x l).
Proof.
  unfold ascending_code_units.
  induction l as [|y l IH]; cbn [ListCollections.insert_sorted]; intros Hl.
  - repeat constructor.
  - inversion Hl as [|? ? Hsorted Hall]; subst.
    destruct (ListCollections.code_unit_leb x y) eqn:E.
    + constructor; [exact Hl|]. constructor; [exact E|].
      rewrite Forall_forall in Hall |- *. intros z Hz.
      exact (units_leb_trans _ _ _ E (Hall z Hz)).
    + constructor; [now apply IH|].
      rewrite Forall_forall in Hall |- *. intros z Hz.
      apply (Permutation_in _ (names_insert_Permutation x l)) in Hz.
      destruct Hz as [<-|Hz]; [|now apply Hall].
      unfold ListCollections.code_unit_leb in *.
      destruct (units_leb_total (ListCollections.code_units y)
                                (ListCollections.code_units x));
        [assumption|congruence].
Qed.

Lemma names_sort_ascending (l : list string) :
  ascending_code_units (ListCollections.Array_sort l).
Proof.
  unfold ListCollections.Array_sort.
  induction l as [|x l IH]; cbn [fold_right].
  - constructor.
  - now apply names_insert_ascending.
Qed.

Lemma userCollections_Permutation (names : list string) :
  Permutation
    (ListCollections.userCollections_of names)
    (filter (fun name => negb (String.prefix "system." name)) names).
Proof. apply names_sort_Permutation. Qed.

Lemma userCollections_In (names : list string) (name : string) :
  In name (ListCollections.userCollections_of names)
  <-> In name names /\ String.prefix "system." name = false.
Proof.
  split.
  - intros H. apply (Permutation_in _ (userCollections_Permutation names)) in H.
    now rewrite filter_In, negb_true_iff in H.
  - intros H.
    apply (Permutation_in _ (Permutation_sym
                               (userCollections_Permutation names))).
    now rewrite filter_In, negb_true_iff.
Qed.

Lemma userCollections_nil (names : list string) :
  ListCollections.userCollections_of names = [] <-> all_system names.
Proof.
  unfold all_system. rewrite Forall_forall. split.
  - intros Hnil name Hname.
    destruct (String.prefix "system." name) eqn:E; [reflexivity|].
    assert (H : In name (ListCollections.userCollections_of names))
      by (apply userCollections_In; auto).
    rewrite Hnil in H. destruct H.
  - intros Hall.
    destruct (ListCollections.userCollections_of names) as [|name rest] eqn:E;
      [reflexivity|].
    assert (H : In name (ListCollections.userCollections_of names))
      by (rewrite E; now left).
    apply userCollections_In in H. destruct H as [H1 H2].
    rewrite (Hall name H1) in H2. discriminate.
Qed.

(** X15.  The collections the tool lists are the non-system collections
    of the database, each as often as the database returned it, in
    ascending order of their UTF-16 code units; a collection is left out
    exactly when its name starts with [system.]. *)
Theorem userCollections_sorted_user_collections (names : list string) :
  Permutation
    (ListCollections.userCollections_of names)
    (filter (fun name => negb (String.prefix "system." name)) names)
  /\ ascending_code_units (ListCollections.userCollections_of names)
  /\ (forall name,
        In name (ListCollections.userCollections_of names)
        <-> In name names /\ String.prefix "system." name = false)
  /\ (ListCollections.userCollections_of names = [] <-> all_system names).
Proof.
  split; [apply userCollections_Permutation|].
  split; [apply names_sort_ascending|].
  split; [apply userCollections_In|apply userCollections_nil].
Qed.

(** The order is that of the code units, not of the bytes: U+1F600, a
    surrogate pair, comes before U+FF5E. *)
Example userCollections_surrogates_first :
  ListCollections.userCollections_of [fullwidth_tilde; grinning_face]
  = [grinning_face; fullwidth_tilde]
  /\ String.leb fullwidth_tilde grinning_face = true.
Proof. split; reflexivity. Qed.

Lemma join_lines (sep : string) (line : string -> string) (l : list string) :
  l <> [] ->
  (sep ++ join sep (map line l))%string
  = String.concat "" (map (fun x => sep ++ line x)%string l).
Proof.
  unfold join. induction l as [|x l IH]; [contradiction|]. intros _.
  destruct l as [|y l].
  - reflexivity.
  - change (String.concat sep (map line (x :: y :: l)))
      with (line x ++ sep ++ String.concat sep (map line (y :: l)))%string.
    rewrite IH by discriminate.
    change (String.concat "" (map (fun x => sep ++ line x)%string
                                  (x :: y :: l)))
      with ((sep ++ line x) ++ ""
            ++ String.concat "" (map (fun x => sep ++ line x)%string
                                     (y :: l)))%string.
    cbn [String.append]. now rewrite string_app_assoc.
Qed.

(** X16.  The answer of the list-collections tool is one text.  When the
    database holds system collections only it is the no-collections text;
    otherwise it is the line that counts the user collections, followed by
    one line [  - name] for each of them in their sorted order, each after
    a line feed, and nothing else. *)
Theorem listCollectionsTool_response
  (connect : string -> result unit)
  (listCollections : Db -> result (list string))
  (env : environment) (db : Db) (collections : list string) :
  getDatabase connect env = Ok db ->
  listCollections db = Ok collections ->
  exists text,
    ListCollections.listCollectionsTool connect listCollections env
    = Ok [textContent text]
    /\ (all_system collections ->
        text = ("No collections found in database " ++ dq ++ db ++ dq)%string)
    /\ (~ all_system collections ->
        text
        = ("Found "
           ++ string_of_nat
                (List.length
                   (filter (fun name => negb (String.prefix "system." name))
                           collections))
           ++ " collection"
           ++ (if Nat.eqb
                    (List.length
                       (filter
                          (fun name => negb (String.prefix "system." name))
                          collections))
                    1
               then "" else "s")
           ++ " in " ++ dq ++ db ++ dq ++ ":"
           ++ String.concat ""
                (map (fun name => ListCollections.lf ++ "  - " ++ name)
                     (ListCollections.userCollections_of collections)))
          %string).
Proof.
  intros Hdb Hlist. unfold ListCollections.listCollectionsTool.
  rewrite Hdb, (getDatabase_name _ _ _ Hdb). cbn [bind]. rewrite Hlist.
  cbn [bind].
  pose proof (Permutation_length (userCollections_Permutation collections))
    as Hlen.
  destruct (ListCollections.userCollections_of collections) as [|first rest]
    eqn:E.
  - eexists. split; [reflexivity|]. split; [reflexivity|].
    intros Hno. apply userCollections_nil in E. contradiction.
  - eexists. split; [reflexivity|]. split.
    + intros Hall. apply userCollections_nil in Hall. congruence.
    + intros _. rewrite <- Hlen.
      rewrite (join_lines ListCollections.lf
                          (fun name => "  - " ++ name)%string)
        by discriminate.
      reflexivity.
Qed.

Lemma listCollectionsTool_response_witness :
  exists text,
    ListCollections.listCollectionsTool
      (fun _ => Ok tt) (fun _ => Ok listed_names) env_configured
    = Ok [textContent text]
    /\ text
       = ("Found 2 collections in " ++ dq ++ "shop" ++ dq ++ ":"
          ++ ListCollections.lf ++ "  - orders"
          ++ ListCollections.lf ++ "  - users")%string.
Proof.
  destruct (listCollectionsTool_response
              (fun _ => Ok tt) (fun _ => Ok listed_names) env_configured
              "shop" listed_names eq_refl eq_refl)
    as (text & Htext & _ & Hfound).
  exists text. split; [exact Htext|].
  rewrite Hfound; [reflexivity|].
  intros Hall. inversion Hall as [|? ? _ Hrest]; subst.
  inversion Hrest as [|? ? _ Hrest']; subst.
  inversion Hrest' as [|? ? Horders _]. discriminate Horders.
Defined.

(** ** The explain tool *)

(** X17.  Whatever the explain tool sends to the database has been
    parsed and validated: there is one call; a find is explained with the
    parsed filter, free of scripting operators, and with the parsed limit
    as it is; an aggregation is explained with the parsed pipeline as it
    is, accepted by [validatePipeline]; the time limit is 30000 ms. *)
Theorem explainTool_calls_are_validated
  (connect : string -> result unit)
  (findArgsSchema_parse : json -> result Explain.ParsedFindArgs)
  (aggregateArgsSchema_parse : json -> result (list record))
  (explain : Explain.explain_call -> result value)
  (EJSON_stringify : value -> bool -> nat -> string)
  (env : environment) (args : Explain.ExplainArgs)
  (c : Explain.explain_call) :
  In c (fst (Explain.explainTool connect findArgsSchema_parse
               aggregateArgsSchema_parse explain EJSON_stringify env args)) ->
  fst (Explain.explainTool connect findArgsSchema_parse
         aggregateArgsSchema_parse explain EJSON_stringify env args) = [c]
  /\ match c with
     | Explain.ExplainFind db collection filter projection sort limit
                           maxTimeMS =>
         Explain.operation args = Explain.find
         /\ getDatabase connect env = Ok db
         /\ collection = Explain.collection args
         /\ findArgsSchema_parse (Explain.operationArgs args)
            = Ok {| Explain.filter := filter;
                    Explain.projection := projection;
                    Explain.sort := sort;
                    Explain.limit := limit |}
         /\ free_of_scripting filter
         /\ maxTimeMS = 30000%Z
     | Explain.ExplainAggregate db collection pipeline maxTimeMS =>
         Explain.operation args = Explain.aggregate
         /\ getDatabase connect env = Ok db
         /\ collection = Explain.collection args
         /\ aggregateArgsSchema_parse (Explain.operationArgs args)
            = Ok pipeline
         /\ validatePipeline pipeline = Ok tt
         /\ maxTimeMS = 30000%Z
     end.
Proof.
  unfold Explain.explainTool.
  destruct (getDatabase connect env) as [db|e] eqn:Hdb; [|intros []].
  rewrite (getDatabase_name _ _ _ Hdb).
  cbn [Run.lift Run.io_bind app].
  destruct (Explain.operation args) eqn:Hop.
  - destruct (findArgsSchema_parse _) as [[filter projection sort limit]|e]
      eqn:Hparse; [|intros []].
    cbn [Run.io_bind app Explain.filter Explain.projection Explain.sort
         Explain.limit].
    destruct (validateFilter _) as [[]|e] eqn:Hvalid; [|intros []].
    cbn [Run.call Run.io_bind app].
    destruct (explain _); cbn [fst Run.lift app]; intros [<-|[]];
      (split; [reflexivity|]); repeat split;
      now apply validateFilter_ok_free.
  - destruct (aggregateArgsSchema_parse _) as [pipeline|e] eqn:Hparse;
      [|intros []].
    cbn [Run.io_bind app].
    destruct (validatePipeline _) as [[]|e] eqn:Hvalid; [|intros []].
    cbn [Run.call Run.io_bind app].
    destruct (explain _); cbn [fst Run.lift app]; intros [<-|[]];
      (split; [reflexivity|]); repeat split; assumption.
Qed.

Lemma explainTool_calls_are_validated_witness :
  fst (Explain.explainTool (fun _ => Ok tt) parse_find_example
         parse_aggregate_example (fun _ => Ok (VObject []))
         (fun _ _ _ => "{}") env_configured explain_args_find)
  = [Explain.ExplainFind "shop" "orders" [("status", JStr "active")]
                         None None (Some (of_Z 5000)) 30000].
Proof.
  refine (proj1 (explainTool_calls_are_validated
                   (fun _ => Ok tt) parse_find_example
                   parse_aggregate_example (fun _ => Ok (VObject []))
                   (fun _ _ _ => "{}") env_configured explain_args_find
                   (Explain.ExplainFind "shop" "orders"
                      [("status", JStr "active")] None None
                      (Some (of_Z 5000)) 30000) _)).
  left. reflexivity.
Defined.

(** X18.  The explain tool asks for the database before it looks at its
    arguments, the find tool after: when the database is not available and
    the filter is one [validateFilter] rejects, explain throws the database
    error and find the validator's; neither calls the database. *)
Theorem explain_asks_for_the_database_first
  (connect : string -> result unit) (env : environment)
  (filter : record) (e_filter e_database : exn) :
  validateFilter (JObj filter) = Throw e_filter ->
  getDatabase connect env = Throw e_database ->
  (forall toArray EJSON_stringify args,
     Find.filter args = filter ->
     Find.findTool connect toArray EJSON_stringify env args
     = ([], Throw e_filter))
  /\ (forall findArgsSchema_parse aggregateArgsSchema_parse explain
             EJSON_stringify args,
        Explain.explainTool connect findArgsSchema_parse
          aggregateArgsSchema_parse explain EJSON_stringify env args
        = ([], Throw e_database)).
Proof.
  intros Hfilter Hdb. split.
  - intros toArray EJSON_stringify args <-.
    rewrite findTool_run. now rewrite Hfilter.
  - intros. unfold Explain.explainTool. now rewrite Hdb.
Qed.

Lemma explain_asks_for_the_database_first_witness :
  Explain.explainTool (fun _ => Ok tt) parse_find_example
    parse_aggregate_example (fun _ => Ok (VObject [])) (fun _ _ _ => "{}")
    env_without_db explain_args_where
  = ([], Throw (Error "MONGODB_DB environment variable is not set")).
Proof.
  refine (proj2 (explain_asks_for_the_database_first
                   (fun _ => Ok tt) env_without_db where_filter
                   (Error (filter_message "$where"))
                   (Error "MONGODB_DB environment variable is not set")
                   eq_refl eq_refl)
                _ _ _ _ _).
Defined.

(** ** Schema inference: paths, kind lists, order of the sample *)

Lemma collect_keys (documents : list value) (path : string) :
  In path (JsMap.keys (collect documents))
  <-> exists doc, In doc documents /\ has_path doc path = true.
Proof. now rewrite <- has_keys, collect_has, presence_pos. Qed.

Lemma inferSchema_keys (documents : list value) (path : string) :
  In path (JsMap.keys (inferSchema documents))
  <-> path <> "__proto__"
      /\ exists doc, In doc documents /\ has_path doc path = true.
Proof.
  destruct documents as [|doc documents].
  - cbn. split; [intros []|intros (_ & d & [] & _)].
  - assert (Hperm : Permutation
                      (JsMap.keys (inferSchema (doc :: documents)))
                      (JsMap.keys (own_entries
                                     (List.length (doc :: documents))
                                     (collect (doc :: documents)))))
      by (apply (Permutation_map fst), inferSchema_entries; discriminate).
    rewrite <- collect_keys. split.
    + intros H. apply (Permutation_in _ Hperm) in H.
      rewrite own_entries_keys, filter_In, negb_true_iff in H.
      destruct H as [H Hne]. split; [|exact H].
      intros ->. discriminate.
    + intros [Hne H]. apply (Permutation_in _ (Permutation_sym Hperm)).
      rewrite own_entries_keys, filter_In, negb_true_iff.
      split; [exact H|]. now apply String.eqb_neq.
Qed.

Lemma inferSchema_get_proto (documents : list value) :
  JsMap.get (inferSchema documents) "__proto__" = None.
Proof.
  destruct (JsMap.get (inferSchema documents) "__proto__") as [entry|] eqn:E;
    [|reflexivity].
  assert (H : JsMap.has (inferSchema documents) "__proto__" = true)
    by (unfold JsMap.has; now rewrite E).
  apply has_keys, inferSchema_keys in H. now destruct H as [H _].
Qed.

(** X19.  The result of [inferSchema] has one entry per path, and a path
    has an entry exactly when it is not [__proto__] and some document of
    the sample has the path: the assignment to [__proto__] replaces the
    prototype of the result and leaves it without such an entry. *)
Theorem inferSchema_paths (documents : list value) :
  NoDup (JsMap.keys (inferSchema documents))
  /\ (forall path,
        In path (JsMap.keys (inferSchema documents))
        <-> path <> "__proto__"
            /\ exists doc, In doc documents /\ has_path doc path = true)
  /\ JsMap.get (inferSchema documents) "__proto__" = None.
Proof.
  split; [apply inferSchema_NoDup|].
  split; [apply inferSchema_keys|apply inferSchema_get_proto].
Qed.

(** The paths come as [Object.keys] lists them: the array indices first,
    in numeric order, and no [__proto__]. *)
Example inferSchema_own_property_order :
  JsMap.keys (inferSchema [index_named_document]) = ["2"; "10"; "b"]
  /\ has_path index_named_document "__proto__" = true.
Proof. split; reflexivity. Qed.

Lemma ascii_compare_Lt_trans (a b c : ascii) :
  Ascii.compare a b = Lt -> Ascii.compare b c = Lt -> Ascii.compare a c = Lt.
Proof.
  unfold Ascii.compare. rewrite !N.compare_lt_iff. apply N.lt_trans.
Qed.

Lemma string_leb_trans (s1 : string) :
  forall s2 s3,
    String.leb s1 s2 = true -> String.leb s2 s3 = true ->
    String.leb s1 s3 = true.
Proof.
  unfold String.leb.
  induction s1 as [|a s1 IH]; intros [|b s2] [|c s3]; cbn [String.compare];
    try reflexivity; try discriminate.
  destruct (Ascii.compare a b) eqn:Eab; [| |discriminate].
  - apply Ascii.compare_eq_iff in Eab. subst b.
    destruct (Ascii.compare a c); [apply IH|reflexivity|intros _ H; exact H].
  - intros _. destruct (Ascii.compare b c) eqn:Ebc; [| |discriminate].
    + apply Ascii.compare_eq_iff in Ebc. subst c. now rewrite Eab.
    + now rewrite (ascii_compare_Lt_trans _ _ _ Eab Ebc).
Qed.

Lemma ascending_strongly (l : list string) :
  ascending l -> StronglySorted (fun a b => String.leb a b = true) l.
Proof.
  apply Sorted_StronglySorted. intros a b c. apply string_leb_trans.
Qed.

(** An ascending list is determined by its elements. *)
Lemma ascending_unique (l : list string) :
  forall l', ascending l -> ascending l' -> Permutation l l' -> l = l'.
Proof.
  induction l as [|x l IH]; intros l' Hl Hl' Hperm.
  - now apply Permutation_nil in Hperm.
  - destruct l' as [|y l'].
    + apply Permutation_sym, Permutation_nil in Hperm. discriminate.
    + pose proof (ascending_strongly _ Hl) as Hs.
      pose proof (ascending_strongly _ Hl') as Hs'.
      inversion Hs as [|? ? _ Hx]; subst.
      inversion Hs' as [|? ? _ Hy]; subst.
      rewrite Forall_forall in Hx, Hy.
      assert (Hxy : x = y).
      { assert (H1 : In x (y :: l'))
          by (apply (Permutation_in _ Hperm); now left).
        assert (H2 : In y (x :: l))
          by (apply (Permutation_in _ (Permutation_sym Hperm)); now left).
        destruct H1 as [H1|H1]; [now symmetry|].
        destruct H2 as [H2|H2]; [assumption|].
        apply String.leb_antisym; [apply Hx|apply Hy]; assumption. }
      subst y. f_equal. apply IH.
      * now inversion Hl.
      * now inversion Hl'.
      * now apply Permutation_cons_inv in Hperm.
Qed.

Lemma Array_sort_of_Permutation (l l' : list string) :
  Permutation l l' -> Array_sort l = Array_sort l'.
Proof.
  intros Hperm. apply ascending_unique; try apply Array_sort_ascending.
  rewrite !Array_sort_Permutation. exact Hperm.
Qed.

(** X20.  The kinds of an entry are listed in ascending order and without
    repetition, and at least one kind is listed; the list is the only
    ascending list of the kinds the documents give the path. *)
Theorem inferSchema_types_ascending
  (documents : list value) (path : string) (entry : FieldSchema) :
  In (path, entry) (inferSchema documents) ->
  types entry <> []
  /\ NoDup (types entry)
  /\ ascending (types entry)
  /\ (forall kinds,
        ascending kinds -> NoDup kinds ->
        (forall kind,
           In kind kinds
           <-> exists doc, In doc documents /\ kind_in doc path kind) ->
        types entry = kinds).
Proof.
  intros Hin. apply inferSchema_entry in Hin.
  destruct Hin as (_ & Hhas & ->). cbn [types field_schema].
  pose proof (collect_kinds_NoDup documents path) as Hnodup.
  assert (Hsorted_nodup :
            NoDup (Array_sort (JsMap.keys (counts (collect documents) path)))).
  { eapply Permutation_NoDup; [|exact Hnodup].
    apply Permutation_sym, Array_sort_Permutation. }
  split; [|split; [exact Hsorted_nodup|split; [apply Array_sort_ascending|]]].
  - apply collect_has, presence_pos in Hhas.
    destruct Hhas as (doc & Hdoc & Hpath).
    unfold has_path, JsMap.has in Hpath.
    destruct (JsMap.get (extractFields doc "") path) as [kind|] eqn:E;
      [|discriminate].
    assert (Hk : In kind (Array_sort
                            (JsMap.keys (counts (collect documents) path)))).
    { apply Array_sort_In, collect_kinds. now exists doc. }
    intros Hnil. rewrite Hnil in Hk. destruct Hk.
  - intros kinds Hasc Hnd Hmem.
    apply ascending_unique; [apply Array_sort_ascending|exact Hasc|].
    apply NoDup_Permutation; [exact Hsorted_nodup|exact Hnd|].
    intros kind. now rewrite Array_sort_In, collect_kinds, Hmem.
Qed.

Lemma inferSchema_types_ascending_witness :
  types {| types := ["Int"; "String"]; percentage := 100%float |} <> [].
Proof.
  refine (proj1 (inferSchema_types_ascending mixed_sample "a" _ _)).
  vm_compute. left. reflexivity.
Defined.

Lemma presence_Permutation (documents documents' : list value)
      (path : string) :
  Permutation documents documents' ->
  presence documents path = presence documents' path.
Proof.
  induction 1 as [|doc l l' _ IH|a b l|l l' l'' _ IH1 _ IH2].
  - reflexivity.
  - now rewrite !presence_cons, IH.
  - rewrite !presence_cons. lia.
  - congruence.
Qed.

Lemma has_collect_Permutation (documents documents' : list value)
      (path : string) :
  Permutation documents documents' ->
  JsMap.has (collect documents) path = JsMap.has (collect documents') path.
Proof.
  intros Hperm.
  destruct (JsMap.has (collect documents) path) eqn:E;
    destruct (JsMap.has (collect documents') path) eqn:E'; try reflexivity.
  - apply collect_has in E.
    rewrite (presence_Permutation _ _ path Hperm) in E.
    apply collect_has in E. congruence.
  - apply collect_has in E'.
    rewrite <- (presence_Permutation _ _ path Hperm) in E'.
    apply collect_has in E'. congruence.
Qed.

(** X21.  The schema does not depend on the order of the sample: for two
    samples with the same documents in different orders every path has the
    same entry, and the results have the same paths. *)
Theorem inferSchema_order_independent (documents documents' : list value) :
  Permutation documents documents' ->
  (forall path,
     JsMap.get (inferSchema documents) path
     = JsMap.get (inferSchema documents') path)
  /\ Permutation (JsMap.keys (inferSchema documents))
                 (JsMap.keys (inferSchema documents')).
Proof.
  intros Hperm. split.
  - intros path.
    destruct documents as [|doc documents].
    { apply Permutation_nil in Hperm. now subst. }
    assert (Hne' : documents' <> []).
    { intros ->. apply Permutation_sym, Permutation_nil in Hperm.
      discriminate. }
    destruct (String.eqb_spec path "__proto__") as [->|Hpath];
      [now rewrite !inferSchema_get_proto|].
    rewrite !inferSchema_get by (assumption || discriminate).
    rewrite (has_collect_Permutation _ _ path Hperm).
    destruct (JsMap.has (collect documents') path); [|reflexivity].
    f_equal. unfold field_schema. f_equal.
    + apply Array_sort_of_Permutation.
      apply NoDup_Permutation; try apply collect_kinds_NoDup.
      intros kind. rewrite !collect_kinds. split.
      * intros (d & Hd & Hk). exists d.
        split; [apply (Permutation_in _ Hperm Hd)|exact Hk].
      * intros (d & Hd & Hk). exists d.
        split; [apply (Permutation_in _ (Permutation_sym Hperm) Hd)|exact Hk].
    + rewrite !collect_total.
      now rewrite (presence_Permutation _ _ path Hperm),
        (Permutation_length Hperm).
  - apply NoDup_Permutation; try apply inferSchema_NoDup.
    intros path. rewrite !inferSchema_keys. split.
    + intros (Hne & d & Hd & Hk). split; [exact Hne|]. exists d.
      split; [apply (Permutation_in _ Hperm Hd)|exact Hk].
    + intros (Hne & d & Hd & Hk). split; [exact Hne|]. exists d.
      split; [apply (Permutation_in _ (Permutation_sym Hperm) Hd)|exact Hk].
Qed.

Lemma inferSchema_order_independent_witness :
  JsMap.get (inferSchema (rev mixed_sample)) "a"
  = JsMap.get (inferSchema mixed_sample) "a".
Proof.
  apply (proj1 (inferSchema_order_independent
                  (rev mixed_sample) mixed_sample
                  (Permutation_sym (Permutation_rev mixed_sample)))).
Defined.

Lemma full_percentages_checked_all : full_percentages_checked 1000 = true.
Proof. vm_compute. reflexivity. Qed.

(** X22.  In a sample of at most 1000 documents a path that every
    document has is reported with the percentage 100. *)
Theorem inferSchema_present_in_all
  (documents : list value) (path : string) (entry : FieldSchema) :
  List.length documents <= 1000 ->
  present_in_all documents path ->
  In (path, entry) (inferSchema documents) ->
  is_number (percentage entry) 100.
Proof.
  intros Hlen Hall Hin. apply inferSchema_entry in Hin.
  destruct Hin as (Hne & _ & ->). cbn [percentage field_schema].
  rewrite collect_total, (presence_all _ _ Hall).
  pose proof full_percentages_checked_all as H.
  unfold full_percentages_checked in H. rewrite forallb_forall in H.
  apply (H (Z.of_nat (List.length documents))).
  apply In_Zrange. destruct documents; [contradiction|]. cbn [List.length] in *.
  lia.
Qed.

Lemma inferSchema_present_in_all_witness :
  is_number
    (percentage {| types := ["Int"; "String"]; percentage := 100%float |})
    100.
Proof.
  apply (inferSchema_present_in_all mixed_sample "a").
  - vm_compute. lia.
  - intros doc Hdoc. vm_compute in Hdoc.
    repeat (destruct Hdoc as [<-|Hdoc]; [reflexivity|]). destruct Hdoc.
  - vm_compute. left. reflexivity.
Defined.

(** ** Field extraction: the paths are the walks through nested objects *)

Lemma has_cons {V : Type} (k : string) (w : V) (m : JsMap.t V) (p : string) :
  JsMap.has ((k, w) :: m) p = (String.eqb p k || JsMap.has m p)%bool.
Proof. unfold JsMap.has. cbn [JsMap.get]. now destruct (String.eqb p k). Qed.

Lemma has_set_all (fields nestedFields : JsMap.t string) (p : string) :
  JsMap.has (set_all fields nestedFields) p
  = (JsMap.has fields p || JsMap.has nestedFields p)%bool.
Proof.
  unfold set_all. revert fields.
  induction nestedFields as [|[k v] rest IH]; intros fields; cbn [fold_left].
  - cbn. now rewrite orb_false_r.
  - cbn [fst snd]. rewrite IH, has_set, has_cons.
    now destruct (String.eqb p k), (JsMap.has fields p).
Qed.

Lemma has_extract_entry (prefix : string) (fields : JsMap.t string)
      (key : string) (v : value) (nestedFields : JsMap.t string) (p : string) :
  JsMap.has (extract_entry prefix fields key v nestedFields) p
  = (JsMap.has fields p
     || String.eqb p (fieldPath_of prefix key)
     || (is_nested_object v && JsMap.has nestedFields p))%bool.
Proof.
  unfold extract_entry. destruct (is_nested_object v); cbn [andb].
  - rewrite has_set_all, has_set.
    now destruct (String.eqb p _), (JsMap.has fields p).
  - rewrite has_set, orb_false_r.
    now destruct (String.eqb p _), (JsMap.has fields p).
Qed.

Lemma has_fold_left {E : Type} (step : JsMap.t string -> E -> JsMap.t string)
      (seen : E -> bool) (p : string) (l : list E) :
  (forall fields e,
     JsMap.has (step fields e) p = (JsMap.has fields p || seen e)%bool) ->
  forall fields,
    JsMap.has (fold_left step l fields) p
    = (JsMap.has fields p || existsb seen l)%bool.
Proof.
  intros Hstep. induction l as [|e l IH]; intros fields; cbn [fold_left existsb].
  - now rewrite orb_false_r.
  - now rewrite IH, Hstep, orb_assoc.
Qed.

Lemma view_entries_numbers (bytes : list Byte.byte) (key : string) (v : value) :
  In (key, v) (view_entries bytes) -> is_nested_object v = false.
Proof.
  unfold view_entries. generalize 0.
  induction bytes as [|b bytes IH]; intros i; cbn [view_entries_from];
    [intros []|].
  intros [[= _ <-]|Hin]; [reflexivity|]. exact (IH _ Hin).
Qed.

Lemma has_extractFields (doc : value) :
  forall prefix p,
    JsMap.has (extractFields doc prefix) p = true
    <-> exists w, reaches doc prefix p w.
Proof.
  induction doc as [v Hv|entries IH] using value_deep_ind; intros prefix p.
  - destruct v;
      try (split; [discriminate|];
           intros (w & Hw); inversion Hw; subst;
           match goal with H : In _ (Object_entries _) |- _ => destruct H end).
    + cbn [extractFields].
      rewrite (has_fold_left _
                 (fun e : string * value =>
                    let '(key, value) := e in
                    String.eqb p (fieldPath_of prefix key))).
      * cbn [JsMap.has JsMap.get JsMap.empty orb]. rewrite existsb_exists.
        split.
        -- intros ([key w] & Hin & Heq). apply String.eqb_eq in Heq.
           subst p. exists w. now apply reaches_entry.
        -- intros (w & Hw).
           inversion Hw as [? ? key ? Hin|? ? key v ? ? Hin Hnested]; subst.
           ++ exists (key, w). split; [exact Hin|apply String.eqb_refl].
           ++ cbn [Object_entries] in Hin.
              apply is_nested_object_iff in Hnested.
              rewrite (view_entries_numbers _ _ _ Hin) in Hnested.
              discriminate.
      * intros fields [key v]. rewrite has_extract_entry.
        cbn [JsMap.has JsMap.get JsMap.empty].
        now rewrite andb_false_r, orb_false_r.
    + now destruct (Hv entries).
  - cbn [extractFields].
    rewrite (has_fold_left _
               (fun e : string * value =>
                  let '(key, value) := e in
                  (String.eqb p (fieldPath_of prefix key)
                   || (is_nested_object value
                       && JsMap.has
                            (extractFields value (fieldPath_of prefix key))
                            p))%bool)).
    + cbn [JsMap.has JsMap.get JsMap.empty orb]. rewrite existsb_exists.
      split.
      * intros ([key v] & Hin & Hseen).
        apply orb_true_iff in Hseen. destruct Hseen as [Heq|Hnested].
        -- apply String.eqb_eq in Heq. subst p. exists v.
           now apply reaches_entry.
        -- apply andb_true_iff in Hnested. destruct Hnested as [Hn Hhas].
           apply (IH key v Hin) in Hhas. destruct Hhas as (w & Hw).
           exists w. apply (reaches_nested _ _ key v); try assumption.
           now apply is_nested_object_iff.
      * intros (w & Hw).
        inversion Hw as [? ? key ? Hin|? ? key v ? ? Hin Hnested Hrest]; subst;
          cbn [Object_entries] in Hin.
        -- exists (key, w). split; [exact Hin|].
           now rewrite String.eqb_refl.
        -- exists (key, v). split; [exact Hin|].
           apply is_nested_object_iff in Hnested.
           rewrite Hnested. cbn [andb].
           apply orb_true_iff. right. apply (IH key v Hin). now exists w.
    + intros fields [key v]. rewrite has_extract_entry.
      now rewrite orb_assoc.
Qed.

Lemma In_set {V : Type} (m : JsMap.t V) (k : string) (v : V)
      (e : string * V) :
  In e (JsMap.set m k v) -> e = (k, v) \/ In e m.
Proof.
  induction m as [|[k0 w] m IH]; cbn [JsMap.set].
  - intros [<-|[]]. now left.
  - destruct (String.eqb_spec k k0) as [->|Hne]; cbn [In].
    + intros [<-|H]; auto.
    + intros [<-|H]; auto. destruct (IH H); auto.
Qed.

Lemma In_set_all (fields nestedFields : JsMap.t string)
      (e : string * string) :
  In e (set_all fields nestedFields) -> In e fields \/ In e nestedFields.
Proof.
  unfold set_all. revert fields.
  induction nestedFields as [|[k v] rest IH]; intros fields; cbn [fold_left];
    [now left|].
  intros H. apply IH in H. cbn [fst snd] in H. destruct H as [H|H].
  - apply In_set in H. destruct H as [->|H]; [right; now left|now left].
  - right. now right.
Qed.

Lemma In_extract_entry (prefix : string) (fields : JsMap.t string)
      (key : string) (v : value) (nestedFields : JsMap.t string)
      (e : string * string) :
  In e (extract_entry prefix fields key v nestedFields) ->
  In e fields
  \/ e = (fieldPath_of prefix key, getBsonType v)
  \/ (is_nested_object v = true /\ In e nestedFields).
Proof.
  unfold extract_entry. destruct (is_nested_object v).
  - intros H. apply In_set_all in H. destruct H as [H|H]; [|auto].
    apply In_set in H. destruct H; auto.
  - intros H. apply In_set in H. destruct H; auto.
Qed.

Lemma In_extractFields (doc : value) :
  forall prefix p kind,
    In (p, kind) (extractFields doc prefix) ->
    exists w, reaches doc prefix p w /\ getBsonType w = kind.
Proof.
  induction doc as [v Hv|entries IH] using value_deep_ind;
    intros prefix p kind.
  - destruct v; try (intros []).
    + cbn [extractFields]. revert p kind.
      apply (fold_left_invariant_In
               (fun fields : JsMap.t string =>
                  forall p kind, In (p, kind) fields ->
                    exists w, reaches (VBinary bytes) prefix p w
                              /\ getBsonType w = kind));
        [|intros ? ? []].
      intros fields [key v] Hin Hfields p kind H.
      apply In_extract_entry in H. destruct H as [H|[[= -> ->]|[Hn _]]].
      * now apply Hfields.
      * exists v. split; [now apply reaches_entry|reflexivity].
      * rewrite (view_entries_numbers _ _ _ Hin) in Hn. discriminate.
    + now destruct (Hv entries).
  - cbn [extractFields]. revert p kind.
    apply (fold_left_invariant_In
             (fun fields : JsMap.t string =>
                forall p kind, In (p, kind) fields ->
                  exists w, reaches (VObject entries) prefix p w
                            /\ getBsonType w = kind));
      [|intros ? ? []].
    intros fields [key v] Hin Hfields p kind H.
    apply In_extract_entry in H. destruct H as [H|[[= -> ->]|[Hn H]]].
    + now apply Hfields.
    + exists v. split; [now apply reaches_entry|reflexivity].
    + apply (IH key v Hin) in H. destruct H as (w & Hw & Hkind).
      exists w. split; [|exact Hkind].
      apply (reaches_nested _ _ key v); try assumption.
      now apply is_nested_object_iff.
Qed.

(** X23.  The paths [extractFields] returns are exactly the walks from
    the document one key at a time that pass through plain objects and
    [ArrayBuffer] views only: nothing below an array, an [ObjectId], a date
    or a regular expression is listed, and everything below a nested plain
    object is.  The kind recorded for a path is the kind of a value the
    path leads to. *)
Theorem extractFields_reaches (doc : value) (prefix p : string) :
  (In p (JsMap.keys (extractFields doc prefix))
   <-> exists w, reaches doc prefix p w)
  /\ (forall kind,
        JsMap.get (extractFields doc prefix) p = Some kind ->
        exists w, reaches doc prefix p w /\ getBsonType w = kind).
Proof.
  split.
  - rewrite <- has_keys. apply has_extractFields.
  - intros kind H. apply In_extractFields. now apply get_In.
Qed.

(** ** The collection-schema tool *)

Lemma applySampleSize_range (r : option number) :
  r <> Some NaN ->
  exists c, applySampleSize r = Fin c /\ (0 < c)%Q /\ (c <= 1000)%Q.
Proof.
  intros Hr. destruct r as [x|].
  - apply (clamp_range x (inject_Z 100) (inject_Z 1000));
      [congruence|reflexivity|discriminate].
  - exists (inject_Z 100). repeat split. discriminate.
Qed.

(** X24.  The collection-schema tool asks the database for one sample:
    its pipeline is the single stage [{ $sample: { size } }] with the
    effective sample size (above 0 and at most 1000 unless the request was
    NaN), run with the time limit of 30000 ms; the pipeline passes the
    tool's own pipeline validator. *)
Theorem collectionSchemaTool_samples_within_bounds
  (connect : string -> result unit)
  (toArray : aggregate_call -> result (list value))
  (formatSchema : SchemaResult -> string)
  (env : environment) (args : SchemaTool.CollectionSchemaArgs)
  (c : aggregate_call) :
  In c (fst (SchemaTool.collectionSchemaTool connect toArray formatSchema
               env args)) ->
  fst (SchemaTool.collectionSchemaTool connect toArray formatSchema env args)
  = [c]
  /\ getDatabase connect env = Ok (call_db c)
  /\ call_collection c = SchemaTool.collection args
  /\ call_pipeline c
     = [[("$sample",
          JObj [("size",
                 JNum (applySampleSize (SchemaTool.sampleSize args)))])]]
  /\ (SchemaTool.sampleSize args <> Some NaN ->
      exists q,
        applySampleSize (SchemaTool.sampleSize args) = Fin q
        /\ (0 < q)%Q /\ (q <= 1000)%Q)
  /\ call_maxTimeMS c = 30000%Z
  /\ validatePipeline (call_pipeline c) = Ok tt.
Proof.
  unfold SchemaTool.collectionSchemaTool.
  destruct (getDatabase connect env) as [db|e] eqn:Hdb; [|intros []].
  rewrite (getDatabase_name _ _ _ Hdb).
  cbn [Run.lift Run.io_bind Run.call app].
  destruct (toArray _) as [documents|e]; cbn [Run.io_bind].
  - destruct (Nat.eqb (List.length documents) 0); cbn [Run.lift fst app];
      intros [<-|[]]; cbn [call_db call_collection call_pipeline
                            call_maxTimeMS];
      (repeat split; try reflexivity; try apply applySampleSize_range).
  - cbn [fst]. intros [<-|[]].
    cbn [call_db call_collection call_pipeline call_maxTimeMS].
    repeat split; try reflexivity; try apply applySampleSize_range.
Qed.

Lemma collectionSchemaTool_samples_within_bounds_witness :
  exists q,
    applySampleSize (Some (of_Z 5000)) = Fin q /\ (0 < q)%Q /\ (q <= 1000)%Q.
Proof.
  refine (proj1 (proj2 (proj2 (proj2 (proj2
    (collectionSchemaTool_samples_within_bounds
       (fun _ => Ok tt) (fun _ => Ok []) (fun _ => "")
       env_configured schema_args_over_limit
       {| call_db := "shop";
          call_collection := "orders";
          call_pipeline :=
            [[("$sample", JObj [("size", JNum (of_Z 1000))])]];
          call_maxTimeMS := 30000 |} _))))) _).
  - left. reflexivity.
  - discriminate.
Defined.

(** ** Kinds and nesting *)

(** X25.  [extractFields] descends into a value exactly when
    [getBsonType] names it [Object] or [Binary]; [Object] is the name of
    the plain objects only, and [Unknown] that of functions and symbols
    only. *)
Theorem getBsonType_of_nested (v : value) :
  (is_nested_object v = true
   <-> getBsonType v = "Object" \/ getBsonType v = "Binary")
  /\ (getBsonType v = "Object" <-> exists entries, v = VObject entries)
  /\ (getBsonType v = "Binary" <-> exists bytes, v = VBinary bytes)
  /\ (getBsonType v = "Unknown" <-> v = VFunction \/ v = VSymbol).
Proof.
  destruct v as [| | | | | | | |n| | | | |];
    try (destruct (Number_isInteger n) eqn:En);
    cbn; try rewrite En;
    (split; [|split; [|split]]); split;
    try discriminate; try (intros [H|H]; discriminate);
    try (intros [? H]; discriminate); eauto.
Qed.

(** ** The client: one invocation against the module state *)

(** X26.  Seen from one invocation, the module with its two variables
    behaves as a driver that connects or fails at once: whatever the state,
    [getDatabase] returns what the client-free reading returns for the
    driver [client_for] of that state, for every environment. *)
Theorem getDatabase_one_invocation
  (connect : nat -> string -> result unit) (st : Singleton.module_state)
  (env : environment) :
  (db <- snd (Singleton.getDatabase connect env st) ;;
   Ok (Singleton.db_name db))
  = getDatabase (client_for connect st) env.
Proof.
  unfold Singleton.getDatabase, getDatabase, getMongoClient,
    Singleton.getMongoClient, client_for.
  destruct (unset (MONGODB_DB env)); [reflexivity|].
  destruct (unset (MONGODB_URI env)); [reflexivity|].
  destruct (Singleton.client st); [reflexivity|].
  destruct (Singleton.clientPromise st) as [[c|e]|]; try reflexivity.
  destruct (connect _ _) as [[]|e]; reflexivity.
Qed.
